(** * GoogleMapsBusinessScraper: record model, field extraction and search session

    A shallow embedding of [src/models/business.ts] (record model and
    completeness score), [src/utils/selectors.ts] (selector table) and
    [src/core/scraper.ts] (field extractor, business assembler and search
    orchestrator), with the properties the specification states about them. *)

From Stdlib Require Import List ZArith NArith QArith Qround Lia Bool String Ascii.
From Stdlib Require PrimFloat Uint63.
From Stdlib Require Import Qabs Lqa.
Import ListNotations.
Open Scope Z_scope.

(* ================================================================= *)
(** ** JavaScript strings *)

(** A JavaScript string is a sequence of UTF-16 code units.  Regular
    expressions without the [u] flag, [trim] and [===] all work on code
    units, so this is the level the source operates at. *)
Definition jsstring := list N.

(** ASCII literals, for readable examples. *)
Fixpoint js (s : string) : jsstring :=
  match s with
  | EmptyString => []
  | String c s' => N_of_ascii c :: js s'
  end.

Definition jsstring_eqb (a b : jsstring) : bool :=
  if list_eq_dec N.eq_dec a b then true else false.

(** [\d] : the ten ASCII digits. *)
Definition isDigit (c : N) : bool := ((48 <=? c) && (c <=? 57))%N.

(** [\s] and the characters removed by [String.prototype.trim]: ECMAScript
    WhiteSpace and LineTerminator code points. *)
Definition isSpace (c : N) : bool :=
  ((c =? 9) || (c =? 10) || (c =? 11) || (c =? 12) || (c =? 13) || (c =? 32)
   || (c =? 160) || (c =? 5760) || ((8192 <=? c) && (c <=? 8202))
   || (c =? 8232) || (c =? 8233) || (c =? 8239) || (c =? 8287)
   || (c =? 12288) || (c =? 65279))%N.

(** A literal character of a pattern. *)
Definition isChar (a : ascii) (c : N) : bool := (c =? N_of_ascii a)%N.

(** The same literal under the [i] flag (ASCII letters only). *)
Definition lower (c : N) : N :=
  if ((65 <=? c) && (c <=? 90))%N then (c + 32)%N else c.
Definition isCharCI (a : ascii) (c : N) : bool :=
  (lower c =? lower (N_of_ascii a))%N.

(** [String.prototype.trim]. *)
Fixpoint trimStart (s : jsstring) : jsstring :=
  match s with
  | c :: s' => if isSpace c then trimStart s' else s
  | [] => []
  end.
Definition trim (s : jsstring) : jsstring := rev (trimStart (rev (trimStart s))).

(** JavaScript truthiness of a string: [!!s]. *)
Definition truthy (s : jsstring) : bool :=
  match s with [] => false | _ :: _ => true end.

(** [a || b] on strings. *)
Definition orElse (a b : jsstring) : jsstring := if truthy a then a else b.

(* ================================================================= *)
(** ** Regular expressions of the scraper

    The two patterns of [scraper.ts] are sequences of single-character atoms
    under greedy quantifiers.  [match_here] is the backtracking matcher of
    ECMAScript for such sequences: a quantifier takes the longest run first
    and gives characters back while the rest of the pattern fails. *)
Module Regex.

Inductive atom :=
| One (p : N -> bool)      (* a character or class, once *)
| Opt (p : N -> bool)      (* x?  *)
| Star (p : N -> bool)     (* x*  *)
| Plus (p : N -> bool).    (* x+  *)

Definition pattern := list atom.

(** The outcome of a match: the text consumed by each atom, and the rest. *)
Definition found := (list jsstring * jsstring)%type.

Definition with_seg (seg : jsstring) (r : option found) : option found :=
  match r with
  | Some (segs, rest) => Some (seg :: segs, rest)
  | None => None
  end.

(** Greedy run of [p] followed by the continuation [k], longest first. *)
Fixpoint star_bt (p : N -> bool) (k : jsstring -> option found) (s : jsstring)
  : option (jsstring * found) :=
  match s with
  | c :: s' =>
      if p c then
        match star_bt p k s' with
        | Some (seg, r) => Some (c :: seg, r)
        | None => option_map (pair []) (k s)
        end
      else option_map (pair []) (k s)
  | [] => option_map (pair []) (k [])
  end.

Definition star_seg (r : option (jsstring * found)) (pre : jsstring) : option found :=
  match r with
  | Some (seg, (segs, rest)) => Some ((pre ++ seg) :: segs, rest)
  | None => None
  end.

Fixpoint match_here (pat : pattern) (s : jsstring) : option found :=
  match pat with
  | [] => Some ([], s)
  | One p :: pat' =>
      match s with
      | c :: s' => if p c then with_seg [c] (match_here pat' s') else None
      | [] => None
      end
  | Opt p :: pat' =>
      match s with
      | c :: s' =>
          if p c then
            match match_here pat' s' with
            | Some (segs, rest) => Some ([c] :: segs, rest)
            | None => with_seg [] (match_here pat' s)
            end
          else with_seg [] (match_here pat' s)
      | [] => with_seg [] (match_here pat' [])
      end
  | Star p :: pat' => star_seg (star_bt p (match_here pat') s) []
  | Plus p :: pat' =>
      match s with
      | c :: s' => if p c then star_seg (star_bt p (match_here pat') s') [c] else None
      | [] => None
      end
  end.

(** [String.prototype.match] without the [g] flag: the match at the least
    start index; [i] counts the code units already skipped. *)
Fixpoint search_from (pat : pattern) (i : nat) (s : jsstring) : option (nat * list jsstring) :=
  match match_here pat s with
  | Some (segs, _) => Some (i, segs)
  | None =>
      match s with
      | [] => None
      | _ :: s' => search_from pat (S i) s'
      end
  end.

Definition search (pat : pattern) (s : jsstring) : option (nat * list jsstring) :=
  search_from pat 0 s.

(** Declarative reading of a pattern: the segments it can consume. *)
Inductive matches : pattern -> list jsstring -> Prop :=
| M_nil : matches [] []
| M_one p c pat segs :
    p c = true -> matches pat segs -> matches (One p :: pat) ([c] :: segs)
| M_opt_some p c pat segs :
    p c = true -> matches pat segs -> matches (Opt p :: pat) ([c] :: segs)
| M_opt_none p pat segs :
    matches pat segs -> matches (Opt p :: pat) ([] :: segs)
| M_star p seg pat segs :
    forallb p seg = true -> matches pat segs -> matches (Star p :: pat) (seg :: segs)
| M_plus p seg pat segs :
    seg <> [] -> forallb p seg = true -> matches pat segs ->
    matches (Plus p :: pat) (seg :: segs).

(** [s] has a match of [pat] starting right after the prefix [pre]. *)
Definition match_at (pat : pattern) (s pre : jsstring) (segs : list jsstring) : Prop :=
  matches pat segs /\ exists rest, s = pre ++ List.concat segs ++ rest.

End Regex.

(* ================================================================= *)
(** ** Number parsing *)

Definition digitVal (c : N) : Z := Z.of_N c - 48.

(** Leading run of digits and what follows it. *)
Fixpoint spanDigits (s : jsstring) : jsstring * jsstring :=
  match s with
  | c :: s' =>
      if isDigit c then let (d, r) := spanDigits s' in (c :: d, r) else ([], s)
  | [] => ([], [])
  end.

Definition digitsValue (ds : jsstring) : Z :=
  fold_left (fun acc c => 10 * acc + digitVal c) ds 0.

(** A JavaScript number.  Ratings are short decimals; the model keeps the
    exact decimal value that the double returned by [parseFloat] denotes. *)
Definition jsnumber := Q.

(** [parseFloat] on the decimal literals [digits], [digits.] and
    [digits.digits] (the only forms the rating pattern captures); [None] is
    [NaN], returned when the string does not start with a digit. *)
Definition parseFloat (s : jsstring) : option jsnumber :=
  let (ip, r) := spanDigits s in
  match ip with
  | [] => None
  | _ :: _ =>
      let fp := match r with
                | c :: r' => if isChar "." c then fst (spanDigits r') else []
                | [] => []
                end in
      Some (Qred (Qmake (digitsValue (ip ++ fp)) (Z.to_pos (10 ^ Z.of_nat (List.length fp)))))
  end.

(** [parseInt(s, 10)] on a string that starts with digits; [None] is [NaN]. *)
Definition parseInt (s : jsstring) : option Z :=
  match fst (spanDigits s) with
  | [] => None
  | ds => Some (digitsValue ds)
  end.

(** [Math.round]: the integer nearest to [x], halves rounded up. *)
Definition Math_round (x : Q) : Z := Qfloor (x + (1 # 2)).

(* ================================================================= *)
(** ** Rating and review-count parsing ([scraper.ts], [parseRating],
    [parseReviewCount]) *)

Import Regex.

(** The pattern of [parseRating]: a capture group made of [\d+], [\.?] and
    [\d*] (the first three atoms), then [\s*] and the letters [star].  No
    flag is given, so letters match by exact code unit. *)
Definition ratingPattern : pattern :=
  [Plus isDigit; Opt (isChar "."); Star isDigit; Star isSpace;
   One (isChar "s"); One (isChar "t"); One (isChar "a"); One (isChar "r")].

(** The pattern of [parseReviewCount]: the group [\d+], then [\s*] and the
    letters [review]. *)
Definition reviewPattern : pattern :=
  [Plus isDigit; Star isSpace;
   One (isChar "r"); One (isChar "e"); One (isChar "v"); One (isChar "i");
   One (isChar "e"); One (isChar "w")].

(** [match[1]] of a match whose group spans the first [n] atoms. *)
Definition group1 (n : nat) (m : option (nat * list jsstring)) : option jsstring :=
  match m with
  | Some (_, segs) => Some (List.concat (firstn n segs))
  | None => None
  end.

Definition parseRating (ratingText : jsstring) : option jsnumber :=
  match group1 3 (search ratingPattern ratingText) with
  | Some g => parseFloat g
  | None => None
  end.

Definition parseReviewCount (reviewText : jsstring) : option Z :=
  match group1 1 (search reviewPattern reviewText) with
  | Some g => parseInt g
  | None => None
  end.

(** The rating pattern as the specification words it: the same pattern
    under the [i] flag. *)
Definition ratingPattern_ci : pattern :=
  [Plus isDigit; Opt (isChar "."); Star isDigit; Star isSpace;
   One (isCharCI "s"); One (isCharCI "t"); One (isCharCI "a"); One (isCharCI "r")].

Definition parseRating_ci (ratingText : jsstring) : option jsnumber :=
  match group1 3 (search ratingPattern_ci ratingText) with
  | Some g => parseFloat g
  | None => None
  end.

(** [extractCityFromAddress]: split on commas, second-to-last part, trimmed. *)
Fixpoint split_comma (cur : jsstring) (s : jsstring) : list jsstring :=
  match s with
  | [] => [rev cur]
  | c :: s' => if isChar "," c then rev cur :: split_comma [] s'
               else split_comma (c :: cur) s'
  end.

Definition extractCityFromAddress (address : jsstring) : jsstring :=
  let parts := split_comma [] address in
  if (2 <=? List.length parts)%nat
  then trim (nth (List.length parts - 2) parts [])
  else [].

(* ================================================================= *)
(** ** Record model ([models/business.ts])

    Optional properties ([name?: T]) are [option]; [None] is [undefined].
    The interfaces list further optional properties (social media links,
    coordinates, capability flags, ...) that neither [createEmptyBusiness],
    [calculateDataCompleteness] nor the scraper reads or writes; they stay
    [undefined] throughout and are left out. *)

Record BusinessHours := {
  monday : option jsstring; tuesday : option jsstring;
  wednesday : option jsstring; thursday : option jsstring;
  friday : option jsstring; saturday : option jsstring;
  sunday : option jsstring }.

Record BusinessLocation := {
  loc_fullAddress : jsstring;
  city : jsstring;
  country : jsstring }.

(** The scraper also stores the address under [contact] (the record is
    built as [any]), hence [contact_fullAddress]. *)
Record BusinessContact := {
  phoneNumber : option jsstring;
  website : option jsstring;
  contact_fullAddress : option jsstring }.

Record BusinessMetrics := {
  rating : option jsnumber;
  reviewCount : option Z;
  priceLevel : option jsstring }.

Record BusinessAttributes := {
  hasWebsite : bool }.

Record BusinessImages := {
  logoUrl : option jsstring;
  photoUrls : list jsstring }.

(** Timestamps are [Date] values, kept as milliseconds since the epoch. *)
Record Business := {
  id : option jsstring;
  businessName : jsstring;
  description : option jsstring;
  businessType : jsstring;
  businessCategories : list jsstring;
  location : BusinessLocation;
  contact : BusinessContact;
  metrics : BusinessMetrics;
  attributes : BusinessAttributes;
  businessHours : option BusinessHours;
  images : BusinessImages;
  googleMapsUrl : jsstring;
  lastUpdated : Z;
  scrapedAt : Z }.

Record ScrapeResult := {
  success : bool;
  business : option Business;
  error : option jsstring;
  retryable : option bool;
  duration : option Z }.

(** [createEmptyBusiness]; the two [new Date()] readings are passed in. *)
Definition createEmptyBusiness (t1 t2 : Z) : Business := {|
  id := None;
  businessName := [];
  description := None;
  businessType := [];
  businessCategories := [];
  location := {| loc_fullAddress := []; city := []; country := js "Israel" |};
  contact := {| phoneNumber := None; website := None; contact_fullAddress := None |};
  metrics := {| rating := None; reviewCount := None; priceLevel := None |};
  attributes := {| hasWebsite := false |};
  businessHours := None;
  images := {| logoUrl := None; photoUrls := [] |};
  googleMapsUrl := [];
  lastUpdated := t1;
  scrapedAt := t2 |}.

(** The values the completeness filter looks at.  The array mixes strings,
    numbers and an object, so its elements are JavaScript values. *)
Inductive jsval :=
| VUndefined
| VNull
| VString (s : jsstring)
| VNumber (x : jsnumber)
| VObject.

Definition ofString (o : option jsstring) : jsval :=
  match o with Some s => VString s | None => VUndefined end.
Definition ofNumber (o : option jsnumber) : jsval :=
  match o with Some x => VNumber x | None => VUndefined end.
Definition ofInt (o : option Z) : jsval :=
  match o with Some n => VNumber (inject_Z n) | None => VUndefined end.
Definition ofHours (o : option BusinessHours) : jsval :=
  match o with Some _ => VObject | None => VUndefined end.

(** [field !== undefined && field !== null && field !== ''] *)
Definition isFilled (field : jsval) : bool :=
  match field with
  | VUndefined => false
  | VNull => false
  | VString [] => false
  | _ => true
  end.

(** The [fields] array of [calculateDataCompleteness]. *)
Definition trackedFields (b : Business) : list jsval :=
  [ VString (businessName b);
    VString (loc_fullAddress (location b));
    ofString (phoneNumber (contact b));
    ofString (website (contact b));
    ofNumber (rating (metrics b));
    ofInt (reviewCount (metrics b));
    ofHours (businessHours b);
    ofString (logoUrl (images b));
    ofString (description b) ].

(** [Math.round((filledFields / fields.length) * 100)] on an array of
    values.  The quotient is taken exactly; for the ten possible counts the
    double computed by JavaScript lies within 1e-13 of it and at least 1/9
    away from a rounding boundary, so the rounded integer is the same. *)
Definition completenessOf (fields : list jsval) : Z :=
  let filledFields := List.length (filter isFilled fields) in
  Math_round ((inject_Z (Z.of_nat filledFields) / inject_Z (Z.of_nat (List.length fields))) * 100).

Definition calculateDataCompleteness (b : Business) : Z :=
  completenessOf (trackedFields b).

(** The same arithmetic in IEEE 754 binary64, as JavaScript performs it:
    [(filledFields / length) * 100] on doubles. *)
Definition toDouble (z : Z) : PrimFloat.float := PrimFloat.of_uint63 (Uint63.of_Z z).

Definition ratio64 (filledFields len : Z) : PrimFloat.float :=
  PrimFloat.mul (PrimFloat.div (toDouble filledFields) (toDouble len)) (toDouble 100).

(** [Math.round x] is the integer [r] with [r - 0.5 <= x < r + 0.5]. *)
Definition roundsTo (x : PrimFloat.float) (r : Z) : bool :=
  let half := PrimFloat.div (toDouble 1) (toDouble 2) in
  PrimFloat.leb (PrimFloat.sub (toDouble r) half) x
  && PrimFloat.ltb x (PrimFloat.add (toDouble r) half).

(* ================================================================= *)
(** ** Selector table ([utils/selectors.ts]) *)

(** A double-quoted attribute value inside a selector. *)
Definition dq (s : string) : jsstring := (34%N :: js s) ++ [34%N].

Module SELECTORS.
Definition search_searchBox := js "input#searchboxinput".
Definition search_resultsContainer := js "div[role=" ++ dq "feed" ++ js "]".
Definition search_noResultsMessage := js "div.section-no-result".
Definition searchResults_businessCard := js "div[role=" ++ dq "article" ++ js "]".
Definition details_panel := js "div[role=" ++ dq "main" ++ js "][aria-label]".
Definition details_businessName := js "h1[class*=" ++ dq "fontHeadlineLarge" ++ js "]".
Definition details_rating :=
  js "div[class*=" ++ dq "fontBodyMedium" ++ js "] span[role=" ++ dq "img"
    ++ js "][aria-label*=" ++ dq "stars" ++ js "]".
Definition details_reviewCount := js "button[aria-label*=" ++ dq "reviews" ++ js "]".
Definition details_priceLevel := js "span[aria-label*=" ++ dq "Price" ++ js "]".
Definition details_businessType := js "button[class*=" ++ dq "fontBodyMedium" ++ js "] span".
Definition contact_phoneNumber :=
  js "button[data-item-id*=" ++ dq "phone" ++ js "] div[class*=" ++ dq "fontBodyMedium" ++ js "]".
Definition contact_websiteUrl := js "a[data-item-id=" ++ dq "authority" ++ js "]".
Definition contact_fullAddress :=
  js "button[data-item-id=" ++ dq "address" ++ js "] div[class*=" ++ dq "fontBodyMedium" ++ js "]".
End SELECTORS.

Module FALLBACK_SELECTORS.
Definition businessName : list jsstring :=
  [ js "h1[class*=" ++ dq "fontHeadlineLarge" ++ js "]";
    js "h1.section-hero-header-title-title";
    js "div[role=" ++ dq "heading" ++ js "][aria-level=" ++ dq "1" ++ js "]";
    js "h1" ].
Definition phoneNumber : list jsstring :=
  [ js "button[data-item-id*=" ++ dq "phone" ++ js "] div[class*=" ++ dq "fontBodyMedium" ++ js "]";
    js "button[aria-label*=" ++ dq "Phone" ++ js "] span";
    js "a[href^=" ++ dq "tel:" ++ js "]" ].
Definition website : list jsstring :=
  [ js "a[data-item-id=" ++ dq "authority" ++ js "]";
    js "a[aria-label*=" ++ dq "Website" ++ js "]";
    js "a[href^=" ++ dq "http" ++ js "]:not([href*=" ++ dq "google.com" ++ js "])" ].
End FALLBACK_SELECTORS.

(* ================================================================= *)
(** ** Effects: the browser, exceptions and the log *)

(** A thrown value: an [Error] with its message, or anything else. *)
Inductive jserror :=
| ErrorObj (message : jsstring)
| NonError.

(** [error instanceof Error ? error.message : 'Unknown error'] *)
Definition errorMessage (e : jserror) : jsstring :=
  match e with
  | ErrorObj m => m
  | NonError => js "Unknown error"
  end.

(** What an awaited call of a collaborator does: return or reject. *)
Inductive reply (A : Type) :=
| Returned (a : A)
| Raised (e : jserror).
Arguments Returned {A} a.
Arguments Raised {A} e.

Definition call (W A : Type) : Type := W -> reply A * W.

(** The collaborators the scraper drives: the Playwright page, the browser
    manager, the anti-detection service, [uuid] and the clock.  [World] is
    everything outside the scraper that these calls read or change. *)
Record Browser := {
  World : Type;
  Element : Type;
  createPage : call World unit;
  goto : jsstring -> Z -> call World unit;
  simulateHumanBehavior : call World unit;
  click : jsstring -> call World unit;
  keyboard_press : jsstring -> call World unit;
  type_ : jsstring -> jsstring -> Z -> call World unit;
  waitForSelector : jsstring -> Z -> call World unit;
  waitForTimeout : Z -> call World unit;
  query : jsstring -> call World (option Element);        (* page.$ *)
  queryAll : jsstring -> call World (list Element);       (* page.$$ *)
  scrollHeight : Element -> call World Z;                 (* evaluate(el => el.scrollHeight) *)
  scrollToBottom : Element -> call World unit;            (* evaluate(el => el.scrollTo(..)) *)
  element_click : Element -> call World unit;
  textContent : Element -> call World (option jsstring);  (* None is null *)
  getAttribute : Element -> jsstring -> call World (option jsstring);
  url : World -> jsstring;
  page_close : call World unit;
  humanDelay : Z -> Z -> call World unit;
  uuidv4 : World -> jsstring * World;
  now : World -> Z * World                                (* new Date(), Date.now() *)
}.

(** The part of [config] the scraper reads. *)
Record Config := {
  scraping_timeout : Z;
  rateLimiting_minDelay : Z;
  rateLimiting_maxDelay : Z }.

(** The calls to [logger] in [scraper.ts], in the order they are made. *)
Inductive LogEntry :=
| LogStarting (query location : jsstring) (limit : Z)
| LogSearchPerformed (searchQuery : jsstring)
| LogScrolling (previousHeight currentHeight attempt : Z)
| LogCardsFound (total extracting : nat)
| LogProcessing (number total : nat)
| LogProcessed (number total : nat)
| LogCardFailed (e : jserror) (index : nat)
| LogDetailsFailed (e : jserror)
| LogCompleted (found : nat)
| LogSearchFailed (e : jserror).

Record state (W : Type) := {
  world : W;
  logged : list LogEntry }.
Arguments world {W} s.
Arguments logged {W} s.

(** The result of running a piece of the scraper: it returns, throws, or
    the fuel of a loop ran out before the loop ended. *)
Inductive outcome (A : Type) :=
| Ok (a : A)
| Throw (e : jserror)
| OutOfFuel.
Arguments Ok {A} a.
Arguments Throw {A} e.
Arguments OutOfFuel {A}.

Definition M (W A : Type) : Type := state W -> outcome A * state W.

Definition ret {W A} (a : A) : M W A := fun s => (Ok a, s).

Definition bind {W A C} (m : M W A) (k : A -> M W C) : M W C :=
  fun s =>
    match m s with
    | (Ok a, s') => k a s'
    | (Throw e, s') => (Throw e, s')
    | (OutOfFuel, s') => (OutOfFuel, s')
    end.

Definition throw {W A} (e : jserror) : M W A := fun s => (Throw e, s).

Definition outOfFuel {W A} : M W A := fun s => (OutOfFuel, s).

(** [try { m } catch (error) { handler error }] *)
Definition try_catch {W A} (m : M W A) (handler : jserror -> M W A) : M W A :=
  fun s =>
    match m s with
    | (Throw e, s') => handler e s'
    | r => r
    end.

(** [await] a collaborator's call. *)
Definition await {W A} (c : call W A) : M W A :=
  fun s =>
    match c (world s) with
    | (Returned a, w') => (Ok a, {| world := w'; logged := logged s |})
    | (Raised e, w') => (Throw e, {| world := w'; logged := logged s |})
    end.

(** A call that cannot fail. *)
Definition read {W A} (f : W -> A * W) : M W A :=
  fun s => let (a, w') := f (world s) in (Ok a, {| world := w'; logged := logged s |}).

Definition logger {W} (entry : LogEntry) : M W unit :=
  fun s => (Ok tt, {| world := world s; logged := logged s ++ [entry] |}).

Declare Scope js_scope.
Delimit Scope js_scope with js.
Notation "x <- c1 ;; c2" := (bind c1 (fun x => c2))
  (at level 61, c1 at next level, right associativity) : js_scope.
Notation "c1 ;; c2" := (bind c1 (fun _ => c2))
  (at level 61, right associativity) : js_scope.
Open Scope js_scope.

(** [Array.prototype.slice(0, end)] for an integral [end]. *)
Definition slice0 {A} (l : list A) (stop : Z) : list A :=
  let len := Z.of_nat (List.length l) in
  let final := if stop <? 0 then Z.max (len + stop) 0 else Z.min stop len in
  firstn (Z.to_nat final) l.

(* ================================================================= *)
(** ** The scraper ([core/scraper.ts], class [GoogleMapsScraper]) *)

Section Scraper.

Variable B : Browser.
Variable config : Config.

Local Abbreviation W := (World B).

(** *** Field extractor *)

Definition extractText (selector : jsstring) : M W jsstring :=
  try_catch
    (element <- await (query B selector) ;;
     match element with
     | None => ret []
     | Some el =>
         text <- await (textContent B el) ;;
         ret (match text with
              | Some t => orElse (trim t) []
              | None => []
              end)
     end)
    (fun _ => ret []).

Definition extractAttr (name : jsstring) (selector : jsstring) : M W jsstring :=
  try_catch
    (element <- await (query B selector) ;;
     match element with
     | None => ret []
     | Some el =>
         value <- await (getAttribute B el name) ;;
         ret (match value with
              | Some v => orElse v []
              | None => []
              end)
     end)
    (fun _ => ret []).

Definition extractHref : jsstring -> M W jsstring := extractAttr (js "href").

Definition extractAriaLabel : jsstring -> M W jsstring := extractAttr (js "aria-label").

(** The two extraction routines that are not implemented yet. *)
Definition extractBusinessHours : M W (option BusinessHours) := ret None.

Definition extractImageUrls : M W (list jsstring) := ret [].

(** *** Business assembler *)

(** The source starts from [createEmptyBusiness()] and assigns properties
    one by one; the record returned lists, for each property, the last
    value assigned to it ([description] keeps the value of the empty
    record, [images] is replaced as a whole). *)
Definition extractBusinessData : M W Business :=
  t1 <- read (now B) ;;
  t2 <- read (now B) ;;
  let business := createEmptyBusiness t1 t2 in
  uuid <- read (uuidv4 B) ;;
  scraped <- read (now B) ;;
  name <- extractText SELECTORS.details_businessName ;;
  mapsUrl <- read (fun w => (url B w, w)) ;;
  phone <- extractText SELECTORS.contact_phoneNumber ;;
  site <- extractHref SELECTORS.contact_websiteUrl ;;
  addr <- extractText SELECTORS.contact_fullAddress ;;
  let contact' := {| phoneNumber := Some phone; website := Some site;
                     contact_fullAddress := Some addr |} in
  let attributes' :=
    {| hasWebsite := match website contact' with
                     | Some w => truthy w
                     | None => false
                     end |} in
  let address := match contact_fullAddress contact' with
                 | Some a => orElse a []
                 | None => []
                 end in
  let location' := {| loc_fullAddress := address;
                      city := extractCityFromAddress address;
                      country := js "Israel" |} in
  ratingText <- extractAriaLabel SELECTORS.details_rating ;;
  reviewCountText <- extractText SELECTORS.details_reviewCount ;;
  price <- extractText SELECTORS.details_priceLevel ;;
  let metrics' := {| rating := parseRating ratingText;
                     reviewCount := parseReviewCount reviewCountText;
                     priceLevel := Some price |} in
  type <- extractText SELECTORS.details_businessType ;;
  let businessType' := orElse type (js "Unknown") in
  hours <- extractBusinessHours ;;
  photos <- extractImageUrls ;;
  updated <- read (now B) ;;
  ret {| id := Some uuid;
         businessName := name;
         description := description business;
         businessType := businessType';
         businessCategories := [businessType'];
         location := location';
         contact := contact';
         metrics := metrics';
         attributes := attributes';
         businessHours := hours;
         images := {| logoUrl := None; photoUrls := photos |};
         googleMapsUrl := mapsUrl;
         lastUpdated := updated;
         scrapedAt := scraped |}.

(** *** Search orchestrator

    Every call to [logger] appends one [LogEntry]; the payload objects of
    the log lines are reduced to the values the statements below use.  The
    bookkeeping of [this.currentPage] and the success-rate string of the
    final log line have no effect on the results and are left out. *)

(** The failure result built in both [catch] blocks. *)
Definition failure (e : jserror) : ScrapeResult :=
  {| success := false; business := None; error := Some (errorMessage e);
     retryable := Some true; duration := None |}.

Definition extractBusinessDetails (card : Element B) : M W ScrapeResult :=
  try_catch
    (await (element_click B card) ;;
     await (waitForSelector B SELECTORS.details_panel 10000) ;;
     await (waitForTimeout B 1500) ;;
     b <- extractBusinessData ;;
     t <- read (now B) ;;
     ret {| success := true; business := Some b; error := None;
            retryable := None; duration := Some (t - scrapedAt b) |})
    (fun e => logger (LogDetailsFailed e) ;; ret (failure e)).

Definition performSearch (query location : jsstring) : M W unit :=
  let searchQuery := query ++ js " in " ++ location in
  await (click B SELECTORS.search_searchBox) ;;
  await (keyboard_press B (js "Control+A")) ;;
  await (keyboard_press B (js "Delete")) ;;
  await (type_ B SELECTORS.search_searchBox searchQuery 100) ;;
  await (keyboard_press B (js "Enter")) ;;
  logger (LogSearchPerformed searchQuery).

Definition maxScrollAttempts : Z := 10.

(** The [while] loop of [scrollResults]; [fuel] bounds the number of
    iterations the model is willing to run. *)
Fixpoint scrollLoop (fuel : nat) (resultsContainer : Element B)
    (previousHeight currentHeight scrollAttempts : Z) : M W unit :=
  if negb (previousHeight =? currentHeight) && (scrollAttempts <? maxScrollAttempts)
  then
    match fuel with
    | O => outOfFuel
    | S fuel' =>
        let previousHeight := currentHeight in
        await (scrollToBottom B resultsContainer) ;;
        await (waitForTimeout B 2000) ;;
        currentHeight <- await (scrollHeight B resultsContainer) ;;
        let scrollAttempts := scrollAttempts + 1 in
        logger (LogScrolling previousHeight currentHeight scrollAttempts) ;;
        scrollLoop fuel' resultsContainer previousHeight currentHeight scrollAttempts
    end
  else ret tt.

Definition scrollResults (fuel : nat) : M W unit :=
  resultsContainer <- await (query B SELECTORS.search_resultsContainer) ;;
  match resultsContainer with
  | None => ret tt
  | Some el =>
      currentHeight <- await (scrollHeight B el) ;;
      scrollLoop fuel el 0 currentHeight 0
  end.

Definition noResultsError : jserror :=
  ErrorObj (js "No results found for search query").

Definition waitForSearchResults (fuel : nat) : M W unit :=
  try_catch
    (await (waitForSelector B SELECTORS.searchResults_businessCard 15000) ;;
     await (waitForTimeout B 2000) ;;
     scrollResults fuel)
    (fun e =>
       noResults <- await (query B SELECTORS.search_noResultsMessage) ;;
       match noResults with
       | Some _ => throw noResultsError
       | None => throw e
       end).

Definition extractBusinessCards (limit : Z) : M W (list (Element B)) :=
  cards <- await (queryAll B SELECTORS.searchResults_businessCard) ;;
  let limitedCards := slice0 cards limit in
  logger (LogCardsFound (List.length cards) (List.length limitedCards)) ;;
  ret limitedCards.

(** One iteration of the [for] loop over the cards: the body and its
    [catch]; [results] is the array built so far. *)
Definition processCard (total index : nat) (card : Element B)
    (results : list ScrapeResult) : M W (list ScrapeResult) :=
  try_catch
    (logger (LogProcessing (index + 1) total) ;;
     (if (0 <? index)%nat
      then await (humanDelay B (rateLimiting_minDelay config) (rateLimiting_maxDelay config))
      else ret tt) ;;
     result <- extractBusinessDetails card ;;
     let results := results ++ [result] in
     (if ((index + 1) mod 5 =? 0)%nat
      then logger (LogProcessed (index + 1) total)
      else ret tt) ;;
     ret results)
    (fun e =>
       logger (LogCardFailed e index) ;;
       ret (results ++ [failure e])).

Fixpoint processCards (total index : nat) (cards : list (Element B))
    (results : list ScrapeResult) : M W (list ScrapeResult) :=
  match cards with
  | [] => ret results
  | card :: rest =>
      results' <- processCard total index card results ;;
      processCards total (S index) rest results'
  end.

Definition searchBusinesses (fuel : nat) (query location : jsstring) (limit : Z)
  : M W (list ScrapeResult) :=
  startTime <- read (now B) ;;
  try_catch
    (logger (LogStarting query location limit) ;;
     await (createPage B) ;;
     await (goto B (js "https://maps.google.com") (scraping_timeout config)) ;;
     await (simulateHumanBehavior B) ;;
     performSearch query location ;;
     waitForSearchResults fuel ;;
     businessCards <- extractBusinessCards limit ;;
     results <- processCards (List.length businessCards) 0 businessCards [] ;;
     finished <- read (now B) ;;
     logger (LogCompleted (List.length results)) ;;
     await (page_close B) ;;
     ret results)
    (fun e => logger (LogSearchFailed e) ;; throw e).

End Scraper.


(* ================================================================= *)
(** ** A simulated site

    A small page model implementing [Browser], used to run the scraper on
    concrete pages.  A [Site] fixes what the page shows; [SimWorld] is what
    changes while the scraper runs. *)

Record Site := {
  site_cards : nat;                                   (* number of result cards *)
  site_noResults : bool;                              (* the no-results banner is shown *)
  site_text : nat -> jsstring -> option jsstring;     (* card, selector: text of the first match *)
  site_attr : nat -> jsstring -> jsstring -> option jsstring; (* card, selector, attribute *)
  site_panelNeverReady : nat -> bool;                 (* cards whose detail panel never loads *)
  site_height : nat -> Z                              (* scroll extent after n scrolls *)
}.

Inductive SimElement :=
| CardEl (i : nat)
| FeedEl
| BannerEl
| NodeEl (card : nat) (selector : jsstring).

Record SimWorld := {
  sim_selected : nat;      (* the card whose panel is open *)
  sim_scrolls : nat;       (* scrolls of the results feed so far *)
  sim_clock : Z;
  sim_ids : N }.

Definition timeoutError : jserror := ErrorObj (js "Timeout exceeded").

Definition sim_ok {A} (a : A) : call SimWorld A := fun w => (Returned a, w).

Definition sim_query (site : Site) (selector : jsstring) : call SimWorld (option SimElement) :=
  fun w =>
    if jsstring_eqb selector SELECTORS.search_resultsContainer then (Returned (Some FeedEl), w)
    else if jsstring_eqb selector SELECTORS.search_noResultsMessage
    then (Returned (if site_noResults site then Some BannerEl else None), w)
    else
      match site_text site (sim_selected w) selector with
      | Some _ => (Returned (Some (NodeEl (sim_selected w) selector)), w)
      | None =>
          match site_attr site (sim_selected w) selector (js "href"),
                site_attr site (sim_selected w) selector (js "aria-label") with
          | None, None => (Returned None, w)
          | _, _ => (Returned (Some (NodeEl (sim_selected w) selector)), w)
          end
      end.

Definition sim_waitForSelector (site : Site) (selector : jsstring) (timeout : Z)
  : call SimWorld unit :=
  fun w =>
    if jsstring_eqb selector SELECTORS.searchResults_businessCard
    then (if (0 <? site_cards site)%nat then (Returned tt, w) else (Raised timeoutError, w))
    else if jsstring_eqb selector SELECTORS.details_panel
    then (if site_panelNeverReady site (sim_selected w)
          then (Raised timeoutError, w) else (Returned tt, w))
    else (Returned tt, w).

Definition SimBrowser (site : Site) : Browser := {|
  World := SimWorld;
  Element := SimElement;
  createPage := sim_ok tt;
  goto := fun _ _ => sim_ok tt;
  simulateHumanBehavior := sim_ok tt;
  click := fun _ => sim_ok tt;
  keyboard_press := fun _ => sim_ok tt;
  type_ := fun _ _ _ => sim_ok tt;
  waitForSelector := sim_waitForSelector site;
  waitForTimeout := fun _ => sim_ok tt;
  query := sim_query site;
  queryAll := fun selector w =>
    if jsstring_eqb selector SELECTORS.searchResults_businessCard
    then (Returned (map CardEl (seq 1 (site_cards site))), w)
    else (Returned [], w);
  scrollHeight := fun _ w => (Returned (site_height site (sim_scrolls w)), w);
  scrollToBottom := fun _ w =>
    (Returned tt, {| sim_selected := sim_selected w; sim_scrolls := S (sim_scrolls w);
                     sim_clock := sim_clock w; sim_ids := sim_ids w |});
  element_click := fun el w =>
    match el with
    | CardEl i => (Returned tt, {| sim_selected := i; sim_scrolls := sim_scrolls w;
                                   sim_clock := sim_clock w; sim_ids := sim_ids w |})
    | _ => (Returned tt, w)
    end;
  textContent := fun el w =>
    match el with
    | NodeEl c selector => (Returned (site_text site c selector), w)
    | _ => (Returned None, w)
    end;
  getAttribute := fun el name w =>
    match el with
    | NodeEl c selector => (Returned (site_attr site c selector name), w)
    | _ => (Returned None, w)
    end;
  url := fun w => js "https://maps.google.com/place/" ++ [(48 + N.of_nat (sim_selected w))%N];
  page_close := sim_ok tt;
  humanDelay := fun lo _ w =>
    (Returned tt, {| sim_selected := sim_selected w; sim_scrolls := sim_scrolls w;
                     sim_clock := sim_clock w + lo; sim_ids := sim_ids w |});
  uuidv4 := fun w =>
    ([(48 + sim_ids w)%N], {| sim_selected := sim_selected w; sim_scrolls := sim_scrolls w;
                              sim_clock := sim_clock w; sim_ids := (sim_ids w + 1)%N |});
  now := fun w =>
    (sim_clock w, {| sim_selected := sim_selected w; sim_scrolls := sim_scrolls w;
                     sim_clock := sim_clock w + 1; sim_ids := sim_ids w |})
|}.

Definition sim_start : state SimWorld :=
  {| world := {| sim_selected := 0; sim_scrolls := 0; sim_clock := 1000; sim_ids := 0 |};
     logged := [] |}.

Definition defaultConfig : Config :=
  {| scraping_timeout := 30000; rateLimiting_minDelay := 2000; rateLimiting_maxDelay := 8000 |}.

(** A listing of [n] cafes: every panel shows a name under the last
    fallback locator [h1] only, a phone number, and a website for the
    even-numbered cards; the feed grows by 500 with every scroll. *)
Definition cafes (n : nat) (neverReady : nat -> bool) : Site := {|
  site_cards := n;
  site_noResults := false;
  site_text := fun c selector =>
    if jsstring_eqb selector (js "h1") then Some (js "Cafe " ++ [(48 + N.of_nat c)%N])
    else if jsstring_eqb selector SELECTORS.contact_phoneNumber then Some (js " 03-5551234 ")
    else None;
  site_attr := fun c selector name =>
    if jsstring_eqb selector SELECTORS.contact_websiteUrl && jsstring_eqb name (js "href")
       && Nat.even c
    then Some (js "https://cafe.example")
    else if jsstring_eqb selector SELECTORS.details_rating && jsstring_eqb name (js "aria-label")
    then Some (js "4.5 stars")
    else None;
  site_panelNeverReady := neverReady;
  site_height := fun k => 500 * (Z.of_nat k + 1)
|}.

(** A search that finds nothing: no cards, and the banner is shown. *)
Definition nothingFound : Site := {|
  site_cards := 0;
  site_noResults := true;
  site_text := fun _ _ => None;
  site_attr := fun _ _ _ => None;
  site_panelNeverReady := fun _ => false;
  site_height := fun _ => 0
|}.

(** Only the third card's panel fails to load. *)
Definition third_only (c : nat) : bool := (c =? 3)%nat.

(** A business whose website link carries the [href] value [u]. *)
Definition siteWithWebsite (u : jsstring) : Site := {|
  site_cards := 1;
  site_noResults := false;
  site_text := fun _ _ => None;
  site_attr := fun _ selector name =>
    if jsstring_eqb selector SELECTORS.contact_websiteUrl && jsstring_eqb name (js "href")
    then Some u else None;
  site_panelNeverReady := fun _ => false;
  site_height := fun _ => 0
|}.

(** The simulated page with the detail panel of card [c] open. *)
Definition sim_at (c : nat) : state SimWorld :=
  {| world := {| sim_selected := c; sim_scrolls := 0; sim_clock := 1000; sim_ids := 0 |};
     logged := [] |}.

(** No card's panel fails to load. *)
Definition always_ready (c : nat) : bool := false.


(* ================================================================= *)
(** ** Vocabulary of the statements *)

(** A decimal number as the rating pattern captures it: digits, an optional
    dot, digits. *)
Definition isDecimal (num : jsstring) : Prop :=
  exists ip dot fp,
    num = ip ++ dot ++ fp /\ ip <> [] /\ forallb isDigit ip = true /\
    (dot = [] \/ dot = js ".") /\ forallb isDigit fp = true.

(** Right after the prefix [pre], [s] reads: the number [num], white space,
    then the letters [star] in lower case. *)
Definition ratingAt (s pre num : jsstring) : Prop :=
  isDecimal num /\
  exists ws post, forallb isSpace ws = true /\ s = pre ++ num ++ ws ++ js "star" ++ post.

(** The characters a decimal number is made of. *)
Definition numChar (c : N) : bool := isDigit c || isChar "." c.

(** [t] is empty or starts with a character outside the class [P]. *)
Definition startsOutside (P : N -> bool) (t : jsstring) : Prop :=
  match t with [] => True | c :: _ => P c = false end.

(** [filledFields]: how many of the nine tracked fields are defined,
    non-null and non-empty. *)
Definition filledCount (b : Business) : Z :=
  Z.of_nat (List.length (filter isFilled (trackedFields b))).

(** A record with every tracked field populated. *)
Definition populatedBusiness : Business := {|
  id := Some (js "b-1");
  businessName := js "Cafe Noir";
  description := Some (js "Espresso bar");
  businessType := js "Cafe";
  businessCategories := [js "Cafe"];
  location := {| loc_fullAddress := js "Dizengoff 123, Tel Aviv, Israel";
                 city := js "Tel Aviv"; country := js "Israel" |};
  contact := {| phoneNumber := Some (js "03-5551234");
                website := Some (js "https://cafe.example");
                contact_fullAddress := None |};
  metrics := {| rating := Some (9 # 2); reviewCount := Some 120; priceLevel := None |};
  attributes := {| hasWebsite := true |};
  businessHours := Some {| monday := Some (js "8-20"); tuesday := None; wednesday := None;
                           thursday := None; friday := None; saturday := None;
                           sunday := None |};
  images := {| logoUrl := Some (js "https://cafe.example/logo.png"); photoUrls := [] |};
  googleMapsUrl := js "https://maps.google.com/place/1";
  lastUpdated := 2;
  scrapedAt := 1 |}.

(** [contact.website] is a non-empty string. *)
Definition websiteNonEmpty (b : Business) : bool :=
  match website (contact b) with
  | Some (_ :: _) => true
  | _ => false
  end.

(** The seven tracked fields other than hours and logo. *)
Definition fieldsBesideHoursAndLogo (b : Business) : list jsval :=
  [ VString (businessName b);
    VString (loc_fullAddress (location b));
    ofString (phoneNumber (contact b));
    ofString (website (contact b));
    ofNumber (rating (metrics b));
    ofInt (reviewCount (metrics b));
    ofString (description b) ].

(** The [LogProcessing] entries of a log: the cards the loop started on,
    by their 1-based number. *)
Definition attempts (log : list LogEntry) : list nat :=
  flat_map (fun e => match e with LogProcessing n _ => [n] | _ => [] end) log.

Section Vocabulary.

Variable B : Browser.
Variable config : Config.

Local Abbreviation W := (World B).

(** [m] always returns (it neither throws nor runs out of fuel) and writes
    nothing to the log. *)
Definition quiet {A} (m : M W A) : Prop :=
  forall s, exists a s', m s = (Ok a, s') /\ logged s' = logged s.

(** Running [m] from [s] returns a value and a state satisfying [Q]. *)
Definition ok_with {A} (m : M W A) (s : state W) (Q : A -> state W -> Prop) : Prop :=
  exists a s', m s = (Ok a, s') /\ Q a s'.

(** The locator resolves to no element in state [s]: [page.$] returns
    [null], or rejects (as it does for a malformed selector). *)
Definition misses (selector : jsstring) (s : state W) : Prop :=
  match query B selector (world s) with
  | (Returned (Some _), _) => False
  | _ => True
  end.

(** The resolution policy as the specification words it: try the primary
    locator, then each fallback in declared order; the first locator that
    resolves gives the text; the empty string when none does. *)
Fixpoint extractTextWithFallback (locators : list jsstring) : M W jsstring :=
  match locators with
  | [] => ret []
  | locator :: fallbacks =>
      element <- try_catch (await (query B locator)) (fun _ => ret None) ;;
      match element with
      | Some el =>
          text <- try_catch (await (textContent B el)) (fun _ => ret None) ;;
          ret (match text with
               | Some t => orElse (trim t) []
               | None => []
               end)
      | None => extractTextWithFallback fallbacks
      end
  end.

(** The steps of [searchBusinesses] up to the submitted search. *)
Definition sessionOpen (query location : jsstring) (limit : Z) : M W unit :=
  startTime <- read (now B) ;;
  logger (LogStarting query location limit) ;;
  await (createPage B) ;;
  await (goto B (js "https://maps.google.com") (scraping_timeout config)) ;;
  await (simulateHumanBehavior B) ;;
  performSearch B query location.

(** The [try] block of [waitForSearchResults]. *)
Definition awaitCards (fuel : nat) : M W unit :=
  await (waitForSelector B SELECTORS.searchResults_businessCard 15000) ;;
  await (waitForTimeout B 2000) ;;
  scrollResults B fuel.

(** The rest of the [try] block of [searchBusinesses], from the wait for
    results on. *)
Definition afterSearch (fuel : nat) (limit : Z) : M W (list ScrapeResult) :=
  waitForSearchResults B fuel ;;
  businessCards <- extractBusinessCards B limit ;;
  results <- processCards B config (List.length businessCards) 0 businessCards [] ;;
  finished <- read (now B) ;;
  logger (LogCompleted (List.length results)) ;;
  await (page_close B) ;;
  ret results.

(** The session up to the point where the result cards are on the page. *)
Definition sessionStart (fuel : nat) (query location : jsstring) (limit : Z) : M W unit :=
  sessionOpen query location limit ;;
  waitForSearchResults B fuel.

(** The steps of one loop iteration that come before the assembler: the
    progress line and the delay between cards, then the click and the wait
    for the detail panel. *)
Definition cardPrelude (total index : nat) : M W unit :=
  logger (LogProcessing (index + 1) total) ;;
  (if (0 <? index)%nat
   then await (humanDelay B (rateLimiting_minDelay config) (rateLimiting_maxDelay config))
   else ret tt).

Definition panelSteps (card : Element B) : M W unit :=
  await (element_click B card) ;;
  await (waitForSelector B SELECTORS.details_panel 10000) ;;
  await (waitForTimeout B 1500).

Definition openPanel (total index : nat) (card : Element B) : M W unit :=
  cardPrelude total index ;;
  panelSteps card.

(** [r] is the Scrape Result of the card numbered [index + 1] processed from
    state [s]: the failure carrying the error thrown while opening its
    panel, or a success carrying the record assembled from the open panel. *)
Definition resultFor (total index : nat) (card : Element B) (s : state W)
    (r : ScrapeResult) : Prop :=
  (exists e s1, openPanel total index card s = (Throw e, s1) /\ r = failure e) \/
  (exists s1 b s2,
     openPanel total index card s = (Ok tt, s1) /\
     extractBusinessData B s1 = (Ok b, s2) /\
     success r = true /\ business r = Some b /\ error r = None).

(** Processing [cards] one after the other from state [s], the first of
    them numbered [index + 1], yields the results [rs], one per card and in
    the same order, and ends in state [s']. *)
Inductive cardRun (total : nat)
  : nat -> list (Element B) -> state W -> list ScrapeResult -> state W -> Prop :=
| run_done index s : cardRun total index [] s [] s
| run_card index card cards s r s1 rs s2 :
    resultFor total index card s r ->
    (forall prior, processCard B config total index card prior s = (Ok (prior ++ [r]), s1)) ->
    cardRun total (S index) cards s1 rs s2 ->
    cardRun total index (card :: cards) s (r :: rs) s2.

End Vocabulary.

(** [entries] are the log lines of the scroll iterations [n+1], [n+2], ...
    entered with scroll extent [cur]: each line starts from the extent the
    previous one ended with, and every iteration that is followed by
    another one saw the extent change. *)
Fixpoint scrollTrace (n cur : Z) (entries : list LogEntry) : Prop :=
  match entries with
  | [] => True
  | e :: rest =>
      exists cur', e = LogScrolling cur cur' (n + 1) /\
                   (rest <> [] -> cur <> cur') /\
                   scrollTrace (n + 1) cur' rest
  end.

(** The last iteration logged left the extent unchanged. *)
Definition lastUnchanged (entries : list LogEntry) : Prop :=
  match last entries (LogCompleted 0) with
  | LogScrolling previousHeight currentHeight _ => previousHeight = currentHeight
  | _ => False
  end.

(* ================================================================= *)
(** ** Further vocabulary: parsing and the assembled record *)


(** [s] does not end with a character of class [P]. *)
Definition endsOutside (P : N -> bool) (s : jsstring) : Prop :=
  startsOutside P (rev s).

(** [s] has neither leading nor trailing white space. *)
Definition trimmed (s : jsstring) : Prop :=
  startsOutside isSpace s /\ endsOutside isSpace s.

Definition noComma (s : jsstring) : bool := forallb (fun c => negb (isChar "," c)) s.

Definition noDigit (s : jsstring) : bool := forallb (fun c => negb (isDigit c)) s.

(** A Scrape Result is one of the two shapes the scraper builds: a success
    with a record and a duration and nothing else, or a failure with a
    message, marked retryable, and nothing else. *)
Definition wellFormedResult (r : ScrapeResult) : Prop :=
  if success r
  then business r <> None /\ error r = None /\ retryable r = None /\ duration r <> None
  else business r = None /\ error r <> None /\ retryable r = Some true /\ duration r = None.

(** [DYNAMIC_SELECTORS] of [utils/selectors.ts]: selectors built around a
    value. *)
Module DYNAMIC_SELECTORS.
Definition ratingValue (rating : jsstring) : jsstring :=
  js "span[aria-label=" ++ [34%N] ++ rating ++ js " stars" ++ [34%N] ++ js "]".
Definition reviewCount (count : jsstring) : jsstring :=
  js "button[aria-label=" ++ [34%N] ++ count ++ js " reviews" ++ [34%N] ++ js "]".
Definition businessHours (day : jsstring) : jsstring :=
  js "tr:has(td:contains(" ++ [34%N] ++ day ++ [34%N] ++ js "))".
End DYNAMIC_SELECTORS.

(** [m] ends whatever the state (it returns or throws, it does not run out
    of fuel) and only appends to the log. *)
Definition steady {W A} (m : M W A) : Prop :=
  forall s, fst (m s) <> OutOfFuel /\ exists l, logged (snd (m s)) = logged s ++ l.

(* ================================================================= *)
(** ** Anti-detection service ([services/antiDetectionService.ts]) *)

(** The one floating-point operation of the delay and viewport choices is
    the product [Math.random() * n].  [rnd] stands for the rounding of that
    product to a double; the statements assume of it what IEEE 754 gives in
    the normal range, a relative error of at most [2^-53].  [Math.random()]
    is a double in [[0, 1)], so at most [1 - 2^-53]. *)
Definition eps64 : Q := 1 # 9007199254740992.

Definition roundsLikeBinary64 (rnd : Q -> Q) : Prop :=
  forall x, (Qabs (rnd x - x) <= eps64 * Qabs x)%Q.

Definition isRandom (u : Q) : Prop := (0 <= u)%Q /\ (u <= 1 - eps64)%Q.

(** [Math.floor(Math.random() * (max - min + 1)) + min], the delay of
    [humanDelay(min, max)] and of [getRandomDelay()]. *)
Definition randomDelay (rnd : Q -> Q) (u : Q) (min max : Z) : Z :=
  Qfloor (rnd (u * inject_Z (max - min + 1))%Q) + min.

Record ViewportSize := { width : Z; height : Z }.

Definition viewports : list ViewportSize :=
  [ {| width := 1920; height := 1080 |};
    {| width := 1366; height := 768 |};
    {| width := 1440; height := 900 |};
    {| width := 1536; height := 864 |};
    {| width := 1280; height := 720 |};
    {| width := 1600; height := 900 |} ].

(** Array indexing by a number: [undefined] ([None]) outside the array. *)
Definition index {A} (l : list A) (i : Z) : option A :=
  if i <? 0 then None else nth_error l (Z.to_nat i).

(** [getRandomViewport()]; [randomizeViewport] is the configuration flag. *)
Definition getRandomViewport (randomizeViewport : bool) (rnd : Q -> Q) (u : Q)
  : option ViewportSize :=
  if negb randomizeViewport
  then index viewports 0
  else index viewports
         (Qfloor (rnd (u * inject_Z (Z.of_nat (List.length viewports)))%Q)).


(* ================================================================= *)
(** ** Configuration ([core/config.ts]) *)

(** [parseInt(s, 10)] in full: leading white space is skipped, one sign is
    read, then the longest run of decimal digits; what follows is ignored.
    [None] is [NaN]: no digit where the number should start.  The value is
    exact for runs up to [2^53]. *)
Definition parseInt10 (s : jsstring) : option Z :=
  let t := trimStart s in
  let (sign, body) :=
    match t with
    | c :: t' =>
        if isChar "-" c then (-1, t')
        else if isChar "+" c then (1, t')
        else (1, t)
    | [] => (1, [])
    end in
  match fst (spanDigits body) with
  | [] => None
  | ds => Some (sign * digitsValue ds)
  end.

(** The characters a number can start with, white space included. *)
Definition numberStart (c : N) : bool :=
  isSpace c || isDigit c || isChar "+" c || isChar "-" c.

(** [String.prototype.toLowerCase] on the ASCII letters.  Code units outside
    ASCII are left as they are: none of them lower-cases to a letter of
    [true], the only string the result is compared with. *)
Definition toLowerCase (s : jsstring) : jsstring := map lower s.

(** [value?.toLowerCase() === 'true']; [None] is [undefined]. *)
Definition parseBoolean (value : option jsstring) : bool :=
  match value with
  | Some v => jsstring_eqb (toLowerCase v) (js "true")
  | None => false
  end.

(** [parseNumber(value, defaultValue)]. *)
Definition parseNumber (value : option jsstring) (defaultValue : Z) : Z :=
  let num := parseInt10 (match value with Some v => orElse v [] | None => [] end) in
  match num with
  | Some n => n
  | None => defaultValue
  end.

(** The [rateLimiting] block of [rawConfig], from the three environment
    variables, and what its schema accepts ([Joi.number().min(..)]). *)
Record RateLimiting := {
  minDelay : Z;
  maxDelay : Z;
  rateLimitPause : Z }.

Definition rawRateLimiting (MIN_DELAY MAX_DELAY RATE_LIMIT_PAUSE : option jsstring)
  : RateLimiting := {|
  minDelay := parseNumber MIN_DELAY 2000;
  maxDelay := parseNumber MAX_DELAY 8000;
  rateLimitPause := parseNumber RATE_LIMIT_PAUSE 60000 |}.

Definition rateLimitingValid (r : RateLimiting) : bool :=
  (1000 <=? minDelay r) && (1000 <=? maxDelay r) && (10000 <=? rateLimitPause r).

(** [getRandomDelay()] of the anti-detection service, on a configuration. *)
Definition getRandomDelay (r : RateLimiting) (rnd : Q -> Q) (u : Q) : Z :=
  randomDelay rnd u (minDelay r) (maxDelay r).

(* ================================================================= *)
(** ** The API lead generator ([searchBusinessesInCity] and [main]) *)

Module PlaceDetails.
(** The fields of a Places API result the generator reads; [None] is an
    absent field. *)
Record t := {
  name : option jsstring;
  formatted_phone_number : option jsstring;
  international_phone_number : option jsstring;
  formatted_address : option jsstring;
  website : option jsstring;
  rating : option Q;
  user_ratings_total : option Z;
  business_status : option jsstring;
  price_level : option Z }.
End PlaceDetails.

Module Leads.

(** Truthiness of an optional string: absent and [''] are falsy. *)
Definition truthyOpt (o : option jsstring) : bool :=
  match o with Some s => truthy s | None => false end.

(** [x && x >= bound] on an optional number. *)
Definition atLeastQ (o : option Q) (bound : Q) : bool :=
  match o with
  | Some x => negb (Qeq_bool x 0) && Qle_bool bound x
  | None => false
  end.

Definition atLeastZ (o : option Z) (bound : Z) : bool :=
  match o with
  | Some x => negb (x =? 0) && (bound <=? x)
  | None => false
  end.

Definition isOperational (o : option jsstring) : bool :=
  match o with
  | Some s => jsstring_eqb s (js "OPERATIONAL")
  | None => false
  end.

(** The lead score, statement by statement. *)
Definition leadScore (details : PlaceDetails.t) : Z :=
  let leadScore := 0 in
  let leadScore :=
    if negb (truthyOpt (PlaceDetails.website details)) then leadScore + 40 else leadScore in
  let leadScore :=
    if truthyOpt (PlaceDetails.formatted_phone_number details) then leadScore + 30 else leadScore in
  let leadScore :=
    if atLeastQ (PlaceDetails.rating details) 4 then leadScore + 10 else leadScore in
  let leadScore :=
    if atLeastZ (PlaceDetails.user_ratings_total details) 50 then leadScore + 10 else leadScore in
  let leadScore :=
    if isOperational (PlaceDetails.business_status details) then leadScore + 10 else leadScore in
  leadScore.

(** [s.startsWith(p)]. *)
Fixpoint startsWith (s p : jsstring) : bool :=
  match p, s with
  | [], _ => true
  | a :: p', c :: s' => (c =? a)%N && startsWith s' p'
  | _ :: _, [] => false
  end.

(** [s.replace(/\D/g, '')]: the digits of [s], in order. *)
Definition digitsOnly (s : jsstring) : jsstring := filter isDigit s.

(** [s.substring(1)]. *)
Definition substring1 (s : jsstring) : jsstring := tl s.

Definition whatsappLink (formatted_phone_number : option jsstring) : jsstring :=
  let whatsappLink := [] in
  if truthyOpt formatted_phone_number then
    let cleanPhone :=
      digitsOnly (match formatted_phone_number with Some p => p | None => [] end) in
    let phoneWithCountry :=
      if startsWith cleanPhone (js "972") then cleanPhone
      else js "972" ++ substring1 cleanPhone in
    js "https://wa.me/" ++ phoneWithCountry
  else whatsappLink.

(** The shekel sign, one UTF-16 code unit. *)
Definition shekel : N := 8362.

(** [details.price_level ? '₪'.repeat(details.price_level) : undefined];
    [repeat] throws a [RangeError] on a negative count. *)
Definition priceLevel (price_level : option Z) : reply (option jsstring) :=
  match price_level with
  | Some n =>
      if n =? 0 then Returned None
      else if n <? 0 then Raised (ErrorObj (js "Invalid count value"))
      else Returned (Some (repeat shekel (Z.to_nat n)))
  | None => Returned None
  end.





Section Client.

(** The Places API client: a text search gives the places found ([None]:
    no [results] field), each with an optional [place_id]; a details request
    gives the details of one place ([None]: no [result] field). *)
Variable W : Type.
Variable textSearch : jsstring -> call W (option (list (option jsstring))).
Variable placeDetails : jsstring -> call W (option PlaceDetails.t).


Definition searchQuery (cityName type : jsstring) : jsstring :=
  type ++ js " in " ++ cityName ++ js ", Israel".


End Client.

(** [iso.replace(/[:.]/g, '-').slice(0, -5)], the time stamp in the name of
    the CSV file. *)
Definition isColonOrDot (c : N) : bool := isChar ":" c || isChar "." c.

Definition dashed (s : jsstring) : jsstring :=
  map (fun c => if isColonOrDot c then N_of_ascii "-" else c) s.

Definition fileStamp (iso : jsstring) : jsstring := slice0 (dashed iso) (-5).

End Leads.



(** Vocabulary for the statements about the lead generator. *)

(** No [:] and no [.] in [s]. *)
Definition plain (s : jsstring) : bool :=
  forallb (fun c => negb (Leads.isColonOrDot c)) s.




(* ================================================================= *)
(** * Properties *)

(** ** The model on small inputs *)

Example trim_both_ends : trim (js "  03-5551234 ") = js "03-5551234".
Proof. reflexivity. Qed.

Example city_of_full_address :
  extractCityFromAddress (js "Dizengoff 123, Tel Aviv, Israel") = js "Tel Aviv".
Proof. reflexivity. Qed.

Example city_without_comma : extractCityFromAddress (js "Unknown Street") = [].
Proof. reflexivity. Qed.

Example rating_of_label : parseRating (js "4.5 stars") = Some (9 # 2).
Proof. reflexivity. Qed.

Example rating_of_integer_label : parseRating (js "Rated 4 star hotel") = Some 4%Q.
Proof. reflexivity. Qed.

Example rating_takes_first_match :
  parseRating (js "12 3.75star, then 9 stars") = Some (15 # 4).
Proof. reflexivity. Qed.

Example review_count_of_label : parseReviewCount (js "1234 reviews") = Some 1234.
Proof. reflexivity. Qed.

Example slice_beyond_length : slice0 [1; 2; 3] 5 = [1; 2; 3].
Proof. reflexivity. Qed.

Example empty_record_scores_zero : calculateDataCompleteness (createEmptyBusiness 0 0) = 0.
Proof. reflexivity. Qed.

Example five_of_nine_scores_56 :
  completenessOf [VString (js "a"); VString []; VNumber 0%Q; VNull; VObject;
                  VString (js "b"); VUndefined; VUndefined; VNumber (9 # 2)] = 56.
Proof. reflexivity. Qed.

(** ** The backtracking matcher agrees with the declarative reading *)

Module RegexFacts.
Import Regex.

Lemma with_seg_some seg r segs rest :
  with_seg seg r = Some (segs, rest) ->
  exists segs', r = Some (segs', rest) /\ segs = seg :: segs'.
Proof.
  destruct r as [[segs' rest']|]; simpl; intros H; inversion H; subst; eauto.
Qed.

Lemma star_bt_sound p k : forall s seg r,
  star_bt p k s = Some (seg, r) ->
  forallb p seg = true /\ exists s', s = seg ++ s' /\ k s' = Some r.
Proof.
  induction s as [|c s IH]; simpl; intros seg r H.
  - destruct (k []) eqn:E; inversion H; subst. split; auto. exists []; auto.
  - destruct (p c) eqn:Pc.
    + destruct (star_bt p k s) as [[seg' r']|] eqn:E.
      * inversion H; subst. destruct (IH _ _ eq_refl) as [Hall [s' [-> Hk]]].
        split; [simpl; now rewrite Pc|]. exists s'; auto.
      * destruct (k (c :: s)) eqn:Ek; inversion H; subst.
        split; auto. exists (c :: s); auto.
    + destruct (k (c :: s)) eqn:Ek; inversion H; subst.
      split; auto. exists (c :: s); auto.
Qed.

Lemma star_bt_here p k s : k s <> None -> star_bt p k s <> None.
Proof.
  destruct s as [|c s]; simpl; intros H.
  - destruct (k []); [discriminate | congruence].
  - destruct (p c); [destruct (star_bt p k s) as [[? ?]|]|];
      try discriminate; destruct (k (c :: s)); try discriminate; congruence.
Qed.

Lemma star_bt_complete p k : forall seg s',
  forallb p seg = true -> k s' <> None -> star_bt p k (seg ++ s') <> None.
Proof.
  induction seg as [|c seg IH]; simpl; intros s' Hall Hk.
  - now apply star_bt_here.
  - apply andb_prop in Hall as [Pc Hall]. rewrite Pc.
    specialize (IH s' Hall Hk).
    destruct (star_bt p k (seg ++ s')) as [[? ?]|]; [discriminate | congruence].
Qed.

Lemma star_seg_some r pre segs rest :
  star_seg r pre = Some (segs, rest) ->
  exists seg segs', r = Some (seg, (segs', rest)) /\ segs = (pre ++ seg) :: segs'.
Proof.
  destruct r as [[seg [segs' rest']]|]; simpl; intros H; inversion H; subst; eauto.
Qed.

Theorem match_here_sound : forall pat s segs rest,
  match_here pat s = Some (segs, rest) ->
  matches pat segs /\ s = List.concat segs ++ rest.
Proof.
  induction pat as [|a pat IH]; intros s segs rest H.
  - simpl in H. inversion H; subst. split; [constructor | reflexivity].
  - destruct a as [p|p|p|p]; simpl in H.
    + destruct s as [|c s]; [discriminate|]. destruct (p c) eqn:Pc; [|discriminate].
      apply with_seg_some in H as [segs' [H ->]].
      apply IH in H as [Hm ->]. split; [now constructor | reflexivity].
    + destruct s as [|c s].
      * apply with_seg_some in H as [segs' [H ->]].
        apply IH in H as [Hm Hs]. split; [now constructor | exact Hs].
      * destruct (p c) eqn:Pc.
        -- destruct (match_here pat s) as [[segs' rest']|] eqn:E.
           ++ inversion H; subst. apply IH in E as [Hm ->].
              split; [now constructor | reflexivity].
           ++ apply with_seg_some in H as [segs' [H ->]].
              apply IH in H as [Hm Hs]. split; [now constructor | exact Hs].
        -- apply with_seg_some in H as [segs' [H ->]].
           apply IH in H as [Hm Hs]. split; [now constructor | exact Hs].
    + apply star_seg_some in H as [seg [segs' [H ->]]].
      apply star_bt_sound in H as [Hall [s' [-> Hk]]].
      apply IH in Hk as [Hm ->]. simpl.
      split; [now constructor | now rewrite <- app_assoc].
    + destruct s as [|c s]; [discriminate|]. destruct (p c) eqn:Pc; [|discriminate].
      apply star_seg_some in H as [seg [segs' [H ->]]].
      apply star_bt_sound in H as [Hall [s' [-> Hk]]].
      apply IH in Hk as [Hm ->]. simpl.
      split.
      * constructor; [discriminate | simpl; now rewrite Pc | assumption].
      * now rewrite <- app_assoc.
Qed.

Theorem match_here_complete : forall pat segs,
  matches pat segs -> forall rest, match_here pat (List.concat segs ++ rest) <> None.
Proof.
  induction 1 as [|p c pat segs Pc Hm IH|p c pat segs Pc Hm IH|p pat segs Hm IH
                  |p seg pat segs Hall Hm IH|p seg pat segs Hne Hall Hm IH];
    intros rest; simpl.
  - discriminate.
  - rewrite Pc. specialize (IH rest).
    destruct (match_here pat (List.concat segs ++ rest)) as [[? ?]|]; simpl; congruence.
  - rewrite Pc. specialize (IH rest).
    destruct (match_here pat (List.concat segs ++ rest)) as [[? ?]|]; simpl; congruence.
  - specialize (IH rest).
    destruct (List.concat segs ++ rest) as [|c s] eqn:E.
    + destruct (match_here pat []) as [[? ?]|]; simpl; congruence.
    + destruct (p c).
      * destruct (match_here pat s) as [[? ?]|]; [discriminate|].
        destruct (match_here pat (c :: s)) as [[? ?]|]; simpl; congruence.
      * destruct (match_here pat (c :: s)) as [[? ?]|]; simpl; congruence.
  - rewrite <- app_assoc.
    pose proof (star_bt_complete p (match_here pat) seg _ Hall (IH rest)) as Hs.
    destruct (star_bt p (match_here pat) (seg ++ List.concat segs ++ rest))
      as [[? [? ?]]|]; simpl; congruence.
  - destruct seg as [|c seg]; [congruence|]. simpl in Hall.
    apply andb_prop in Hall as [Pc Hall]. simpl. rewrite Pc. rewrite <- app_assoc.
    pose proof (star_bt_complete p (match_here pat) seg _ Hall (IH rest)) as Hs.
    destruct (star_bt p (match_here pat) (seg ++ List.concat segs ++ rest))
      as [[? [? ?]]|]; simpl; congruence.
Qed.

Lemma no_match_here pat s :
  match_here pat s = None -> forall segs, ~ match_at pat s [] segs.
Proof.
  intros H segs [Hm [rest Hs]]. simpl in Hs. subst s.
  now apply (match_here_complete pat segs Hm rest).
Qed.

(** The match returned starts at the least index at which one exists. *)
Theorem search_from_some : forall pat s i j segs,
  search_from pat i s = Some (j, segs) ->
  exists pre, match_at pat s pre segs /\ j = (i + List.length pre)%nat /\
    forall pre' segs', match_at pat s pre' segs' ->
                       (List.length pre <= List.length pre')%nat.
Proof.
  induction s as [|c s IH]; intros i j segs H; simpl in H.
  - destruct (match_here pat []) as [[segs' rest]|] eqn:E; [|discriminate].
    inversion H; subst. apply match_here_sound in E as [Hm Hs].
    exists []. repeat split; simpl; auto with arith. exists rest; auto.
  - destruct (match_here pat (c :: s)) as [[segs' rest]|] eqn:E.
    + inversion H; subst. apply match_here_sound in E as [Hm Hs].
      exists []. repeat split; simpl; auto with arith. exists rest; auto.
    + apply IH in H as [pre [[Hm [rest Hs]] [-> Hmin]]].
      exists (c :: pre). split; [|split].
      * split; auto. exists rest. simpl. now rewrite Hs.
      * simpl. lia.
      * intros pre' segs' Hat. destruct pre' as [|c' pre'].
        -- exfalso. exact (no_match_here _ _ E _ Hat).
        -- simpl. apply le_n_S. apply (Hmin pre' segs').
           destruct Hat as [Hm' [rest' Hs']]. split; auto.
           exists rest'. simpl in Hs'. now inversion Hs'.
Qed.

Theorem search_from_none : forall pat s i,
  search_from pat i s = None -> forall pre segs, ~ match_at pat s pre segs.
Proof.
  induction s as [|c s IH]; intros i H pre segs Hat; simpl in H.
  - destruct (match_here pat []) as [[? ?]|] eqn:E; [discriminate|].
    destruct pre as [|c' pre].
    + exact (no_match_here _ _ E _ Hat).
    + destruct Hat as [_ [rest Hs]]. discriminate.
  - destruct (match_here pat (c :: s)) as [[? ?]|] eqn:E; [discriminate|].
    destruct pre as [|c' pre].
    + exact (no_match_here _ _ E _ Hat).
    + apply (IH _ H pre segs). destruct Hat as [Hm [rest Hs]].
      split; auto. exists rest. simpl in Hs. now inversion Hs.
Qed.

End RegexFacts.

(** ** Rating parsing *)

Section RatingFacts.
Import Regex RegexFacts.

Lemma matches_ratingPattern segs :
  matches ratingPattern segs <->
  exists ip dot fp ws,
    segs = [ip; dot; fp; ws; js "s"; js "t"; js "a"; js "r"] /\
    ip <> [] /\ forallb isDigit ip = true /\ (dot = [] \/ dot = js ".") /\
    forallb isDigit fp = true /\ forallb isSpace ws = true.
Proof.
  unfold ratingPattern. split.
  - intros H.
    repeat match goal with
           | H : matches (_ :: _) _ |- _ => inversion H; clear H; subst
           | H : matches [] _ |- _ => inversion H; clear H; subst
           | H : isChar _ _ = true |- _ => apply N.eqb_eq in H; subst
           end;
      do 4 eexists; (split; [reflexivity|]); repeat split; auto.
  - intros (ip & dot & fp & ws & -> & Hne & Hip & Hdot & Hfp & Hws).
    apply M_plus; auto. 
    assert (Hrest : matches [Star isDigit; Star isSpace; One (isChar "s");
                             One (isChar "t"); One (isChar "a"); One (isChar "r")]
                      [fp; ws; js "s"; js "t"; js "a"; js "r"]).
    { apply M_star; auto. apply M_star; auto.
      repeat (apply M_one; [reflexivity|]). constructor. }
    destruct Hdot as [-> | ->].
    + now apply M_opt_none.
    + now apply M_opt_some.
Qed.

Lemma ratingAt_match_at s pre num :
  ratingAt s pre num <->
  exists segs, match_at ratingPattern s pre segs /\ List.concat (firstn 3 segs) = num.
Proof.
  split.
  - intros [(ip & dot & fp & -> & Hne & Hip & Hdot & Hfp) (ws & post & Hws & ->)].
    exists [ip; dot; fp; ws; js "s"; js "t"; js "a"; js "r"]. split.
    + split.
      * apply matches_ratingPattern. do 4 eexists. split; [reflexivity|]. auto.
      * exists post. simpl. now rewrite <- !app_assoc.
    + simpl. now rewrite app_nil_r.
  - intros (segs & [Hm [rest ->]] & <-).
    apply matches_ratingPattern in Hm
      as (ip & dot & fp & ws & -> & Hne & Hip & Hdot & Hfp & Hws).
    split.
    + exists ip, dot, fp. simpl. rewrite app_nil_r. auto.
    + exists ws, rest. split; auto. simpl. now rewrite <- !app_assoc.
Qed.

Lemma space_not_numChar c : isSpace c = true -> numChar c = false.
Proof.
  intros H. apply Bool.not_true_is_false. intros H2.
  unfold isSpace, numChar, isDigit, isChar in *. simpl in *.
  repeat rewrite ?Bool.orb_true_iff, ?Bool.andb_true_iff, ?N.eqb_eq, ?N.leb_le in *.
  lia.
Qed.

Lemma digits_numChars ds : forallb isDigit ds = true -> forallb numChar ds = true.
Proof.
  induction ds as [|c ds IH]; simpl; auto. intros H.
  apply andb_prop in H as [Hc H]. unfold numChar at 1. now rewrite Hc, IH.
Qed.

Lemma decimal_numChars num : isDecimal num -> forallb numChar num = true.
Proof.
  intros (ip & dot & fp & -> & _ & Hip & Hdot & Hfp).
  rewrite !forallb_app, (digits_numChars _ Hip), (digits_numChars _ Hfp).
  destruct Hdot as [-> | ->]; reflexivity.
Qed.

Lemma run_unique (P : N -> bool) : forall xs ys t t',
  forallb P xs = true -> forallb P ys = true ->
  startsOutside P t -> startsOutside P t' ->
  xs ++ t = ys ++ t' -> xs = ys.
Proof.
  induction xs as [|x xs IH]; intros [|y ys] t t' Hx Hy Ht Ht' E; simpl in *.
  - reflexivity.
  - subst t. simpl in Ht. apply andb_prop in Hy as [Hy _]. congruence.
  - subst t'. simpl in Ht'. apply andb_prop in Hx as [Hx _]. congruence.
  - apply andb_prop in Hx as [_ Hx]. apply andb_prop in Hy as [_ Hy].
    inversion E; subst. f_equal. now apply (IH ys t t').
Qed.

Lemma app_same_length {A} : forall (a b x y : list A),
  List.length a = List.length b -> a ++ x = b ++ y -> x = y.
Proof.
  induction a as [|h a IH]; intros [|h' b] x y Hl E; simpl in *; try discriminate.
  - assumption.
  - inversion E. apply (IH b x y); auto.
Qed.

Lemma ratingAt_tail s pre num :
  ratingAt s pre num ->
  exists tail, s = pre ++ num ++ tail /\ startsOutside numChar tail.
Proof.
  intros [_ (ws & post & Hws & ->)]. exists (ws ++ js "star" ++ post). split; auto.
  destruct ws as [|c ws]; simpl in *.
  - reflexivity.
  - apply andb_prop in Hws as [Hc _]. now apply space_not_numChar.
Qed.

Lemma ratingAt_unique s pre num pre' num' :
  ratingAt s pre num -> ratingAt s pre' num' ->
  List.length pre' = List.length pre -> num' = num.
Proof.
  intros H H' Hl.
  destruct (ratingAt_tail _ _ _ H) as (t & E & Ht).
  destruct (ratingAt_tail _ _ _ H') as (t' & E' & Ht').
  rewrite E in E'. apply (app_same_length _ _ _ _ (eq_sym Hl)) in E'.
  symmetry. apply (run_unique numChar num num' t t'); auto.
  - apply decimal_numChars, H.
  - apply decimal_numChars, H'.
Qed.

(** C8 (as amended): [parseRating] returns the number of the first place
    where the text reads a decimal number, optional white space and the
    letters [star] in lower case; the match is case-sensitive.  At the least
    start index the number is unique and the result is its value; when the
    text has no such place the result is absent.  So ["4.5 stars"] gives
    4.5 and ["Rated 4.5 out of 5"] gives nothing. *)
Theorem parseRating_first_match :
  (forall s q, parseRating s = Some q ->
     exists pre num,
       ratingAt s pre num /\ parseFloat num = Some q /\
       forall pre' num', ratingAt s pre' num' ->
         (List.length pre <= List.length pre')%nat /\
         (List.length pre' = List.length pre -> num' = num)) /\
  (forall s, parseRating s = None <-> forall pre num, ~ ratingAt s pre num) /\
  parseRating (js "4.5 stars") = Some (9 # 2) /\
  parseRating (js "Rated 4.5 out of 5") = None.
Proof.
  split; [|split; [|split; reflexivity]].
  - intros s q H. unfold parseRating, search in H.
    destruct (search_from ratingPattern 0 s) as [[j segs]|] eqn:E; cbn [group1] in H;
      [|discriminate].
    apply search_from_some in E as (pre & Hat & _ & Hmin).
    assert (Hr : ratingAt s pre (List.concat (firstn 3 segs))).
    { apply ratingAt_match_at. eauto. }
    exists pre, (List.concat (firstn 3 segs)). split; [exact Hr|]. split; [exact H|].
    intros pre' num' Hr'. split.
    + apply ratingAt_match_at in Hr' as (segs' & Hat' & _). eauto.
    + intros Hl. eapply ratingAt_unique; eauto.
  - intros s. unfold parseRating, search. split.
    + intros H pre num Hr.
      destruct (search_from ratingPattern 0 s) as [[j segs]|] eqn:E; cbn [group1] in H.
      * apply search_from_some in E as (pre0 & Hat & _ & _).
        destruct Hat as [Hm _]. apply matches_ratingPattern in Hm
          as (ip & dot & fp & ws & -> & Hne & Hip & _).
        destruct ip as [|c ip]; [congruence|]. simpl in Hip.
        apply andb_prop in Hip as [Hc _].
        unfold parseFloat in H. simpl in H. rewrite Hc in H.
        destruct (spanDigits (ip ++ dot ++ fp ++ [])) in H. discriminate.
      * apply ratingAt_match_at in Hr as (segs & Hat & _).
        exact (search_from_none _ _ _ E _ _ Hat).
    + intros H.
      destruct (search_from ratingPattern 0 s) as [[j segs]|] eqn:E; simpl; auto.
      apply search_from_some in E as (pre0 & Hat & _ & _).
      exfalso. apply (H pre0 (List.concat (firstn 3 segs))).
      apply ratingAt_match_at. eauto.
Qed.

(** C8, witness: the text ["about 4.5 stars"] has its first match after
    six code units. *)
Lemma parseRating_first_match_witness :
  exists pre num,
    ratingAt (js "about 4.5 stars") pre num /\ parseFloat num = Some (9 # 2).
Proof.
  destruct (proj1 parseRating_first_match (js "about 4.5 stars") (9 # 2) eq_refl)
    as (pre & num & H1 & H2 & _).
  exists pre, num. split; assumption.
Defined.

(** C8, the claim as stated fails: under a case-insensitive reading the
    label ["4.5 Stars"] has the rating 4.5, but [parseRating] finds no match
    in it. *)
Lemma parseRating_is_case_sensitive :
  parseRating_ci (js "4.5 Stars") = Some (9 # 2) /\
  parseRating (js "4.5 Stars") = None.
Proof. split; reflexivity. Qed.

End RatingFacts.

(** ** Running effectful code *)

Section MonadFacts.

Variable B : Browser.
Local Abbreviation W := (World B).

Lemma bind_ok {A C} (m : M W A) (k : A -> M W C) s a s1 :
  m s = (Ok a, s1) -> bind m k s = k a s1.
Proof. unfold bind. now intros ->. Qed.

Lemma bind_throw {A C} (m : M W A) (k : A -> M W C) s e s1 :
  m s = (Throw e, s1) -> bind m k s = (Throw e, s1).
Proof. unfold bind. now intros ->. Qed.

Lemma try_ok {A} (m : M W A) h s a s1 :
  m s = (Ok a, s1) -> try_catch m h s = (Ok a, s1).
Proof. unfold try_catch. now intros ->. Qed.

Lemma try_throw {A} (m : M W A) h s e s1 :
  m s = (Throw e, s1) -> try_catch m h s = h e s1.
Proof. unfold try_catch. now intros ->. Qed.

Lemma quiet_ret {A} (a : A) : quiet B (ret a).
Proof. intros s. exists a, s. auto. Qed.

Lemma quiet_read {A} (f : W -> A * W) : quiet B (read f).
Proof.
  intros s. unfold read. destruct (f (world s)) as [a w']. eauto.
Qed.

Lemma quiet_bind {A C} (m : M W A) (k : A -> M W C) :
  quiet B m -> (forall a, quiet B (k a)) -> quiet B (bind m k).
Proof.
  intros Hm Hk s. destruct (Hm s) as (a & s1 & E & L).
  destruct (Hk a s1) as (c & s2 & E2 & L2).
  exists c, s2. split; [now rewrite (bind_ok _ _ _ _ _ E) | congruence].
Qed.

(** What [await] does to the log: nothing. *)
Lemma await_logged {A} (c : call W A) s :
  logged (snd (await c s)) = logged s.
Proof. unfold await. now destruct (c (world s)) as [[a|e] w']. Qed.

Lemma await_finishes {A} (c : call W A) s : fst (await c s) <> OutOfFuel.
Proof. unfold await. now destruct (c (world s)) as [[a|e] w']. Qed.

(** Sequencing under a postcondition. *)
Lemma ok_bind {A C} (m : M W A) (k : A -> M W C) s Q :
  quiet B m ->
  (forall a s1, m s = (Ok a, s1) -> logged s1 = logged s -> ok_with B (k a) s1 Q) ->
  ok_with B (bind m k) s Q.
Proof.
  intros Hm Hk. destruct (Hm s) as (a & s1 & E & L).
  destruct (Hk a s1 E L) as (c & s2 & E2 & HQ).
  exists c, s2. split; [now rewrite (bind_ok _ _ _ _ _ E) | assumption].
Qed.

Lemma ok_ret {A} (a : A) s (Q : A -> state W -> Prop) : Q a s -> ok_with B (ret a) s Q.
Proof. intros HQ. exists a, s. auto. Qed.

Lemma await_bind {A C} (c : call W A) (k : A -> M W C) s :
  bind (await c) k s =
  match c (world s) with
  | (Returned a, w') => k a {| world := w'; logged := logged s |}
  | (Raised e, w') => (Throw e, {| world := w'; logged := logged s |})
  end.
Proof. unfold bind, await. now destruct (c (world s)) as [[a|e] w']. Qed.

Lemma logger_bind {C} entry (k : unit -> M W C) s :
  bind (logger entry) k s = k tt {| world := world s; logged := logged s ++ [entry] |}.
Proof. reflexivity. Qed.

Lemma read_bind {A C} (f : W -> A * W) (k : A -> M W C) s :
  bind (read f) k s =
  k (fst (f (world s))) {| world := snd (f (world s)); logged := logged s |}.
Proof. unfold bind, read. now destruct (f (world s)). Qed.

Lemma read_run {A} (f : W -> A * W) s :
  read f s = (Ok (fst (f (world s))), {| world := snd (f (world s)); logged := logged s |}).
Proof. unfold read. now destruct (f (world s)). Qed.

Lemma await_run {A} (c : call W A) s a w' :
  c (world s) = (Returned a, w') ->
  await c s = (Ok a, {| world := w'; logged := logged s |}).
Proof. unfold await. now intros ->. Qed.

Lemma logger_run entry (s : state W) :
  logger entry s = (Ok tt, {| world := world s; logged := logged s ++ [entry] |}).
Proof. reflexivity. Qed.

Lemma bind_ok_inv {A C} (m : M W A) (k : A -> M W C) s c s' :
  bind m k s = (Ok c, s') ->
  exists a s1, m s = (Ok a, s1) /\ k a s1 = (Ok c, s').
Proof.
  unfold bind. destruct (m s) as [[a|e|] s1]; intros H; try discriminate. eauto.
Qed.

(** A [try] block is run step by step. *)
Lemma try_bind {A C} (m : M W A) (k : A -> M W C) h s :
  try_catch (bind m k) h s =
  match m s with
  | (Ok a, s1) => try_catch (k a) h s1
  | (Throw e, s1) => h e s1
  | (OutOfFuel, s1) => (OutOfFuel, s1)
  end.
Proof. unfold try_catch, bind. now destruct (m s) as [[a|e|] s1]. Qed.

End MonadFacts.

(** ** Field extractor *)

Section ExtractorFacts.

Variable B : Browser.
Local Abbreviation W := (World B).

Lemma extractText_quiet selector : quiet B (extractText B selector).
Proof.
  intros s. unfold extractText, try_catch, bind, await, ret.
  destruct (query B selector (world s)) as [[[el|]|e] w]; cbn; eauto.
  destruct (textContent B el w) as [[t|e] w']; cbn; eauto.
Qed.

Lemma extractAttr_quiet name selector : quiet B (extractAttr B name selector).
Proof.
  intros s. unfold extractAttr, try_catch, bind, await, ret.
  destruct (query B selector (world s)) as [[[el|]|e] w]; cbn; eauto.
  destruct (getAttribute B el name w) as [[t|e] w']; cbn; eauto.
Qed.

Lemma extractText_miss selector s t s' :
  misses B selector s -> extractText B selector s = (Ok t, s') -> t = [].
Proof.
  unfold misses, extractText, try_catch, bind, await, ret.
  destruct (query B selector (world s)) as [[[el|]|e] w]; cbn;
    intros Hm H; inversion H; subst; tauto.
Qed.

Lemma extractAttr_miss name selector s t s' :
  misses B selector s -> extractAttr B name selector s = (Ok t, s') -> t = [].
Proof.
  unfold misses, extractAttr, try_catch, bind, await, ret.
  destruct (query B selector (world s)) as [[[el|]|e] w]; cbn;
    intros Hm H; inversion H; subst; tauto.
Qed.

End ExtractorFacts.

(** C3 (as amended): for every browser, every selector string and every
    state, [extractText], [extractHref] and [extractAriaLabel] return a
    string and never throw; when the locator resolves to no element, or the
    query rejects as for a malformed selector, the string returned is the
    empty string, for text and for attributes alike. *)
Theorem extractors_never_throw : forall (B : Browser) selector s,
  (exists t s', extractText B selector s = (Ok t, s') /\
                (misses B selector s -> t = [])) /\
  (exists t s', extractHref B selector s = (Ok t, s') /\
                (misses B selector s -> t = [])) /\
  (exists t s', extractAriaLabel B selector s = (Ok t, s') /\
                (misses B selector s -> t = [])).
Proof.
  intros B selector s. repeat split.
  - destruct (extractText_quiet B selector s) as (t & s' & E & _).
    exists t, s'. split; auto. intros Hm. eapply extractText_miss; eauto.
  - destruct (extractAttr_quiet B (js "href") selector s) as (t & s' & E & _).
    exists t, s'. split; auto. intros Hm. eapply extractAttr_miss; eauto.
  - destruct (extractAttr_quiet B (js "aria-label") selector s) as (t & s' & E & _).
    exists t, s'. split; auto. intros Hm. eapply extractAttr_miss; eauto.
Qed.

(** C3, witness: on the page of a search that found nothing, the
    business-name locator misses and [extractText] returns the empty
    string. *)
Lemma extractors_never_throw_witness :
  exists t s',
    extractText (SimBrowser nothingFound) SELECTORS.details_businessName sim_start
      = (Ok t, s') /\ t = [].
Proof.
  destruct (extractors_never_throw (SimBrowser nothingFound)
              SELECTORS.details_businessName sim_start)
    as [(t & s' & E & Hm) _].
  exists t, s'. split; [exact E | apply Hm; exact I].
Defined.

(** C3, the claim as stated fails: on a miss [extractHref] returns the
    empty string, a defined value, and the assembled record carries
    [website: ''] rather than an absent website. *)
Lemma extractHref_miss_is_empty_string :
  misses (SimBrowser nothingFound) SELECTORS.contact_websiteUrl sim_start /\
  VString [] <> VUndefined /\
  fst (extractHref (SimBrowser nothingFound) SELECTORS.contact_websiteUrl sim_start)
    = Ok [] /\
  exists b,
    fst (extractBusinessData (SimBrowser nothingFound) sim_start) = Ok b /\
    website (contact b) = Some [] /\ website (contact b) <> None.
Proof.
  split; [exact I|]. split; [discriminate|]. split; [reflexivity|].
  eexists. split; [reflexivity|]. split; [reflexivity | discriminate].
Qed.

(** ** Business assembler *)

Section AssemblerFacts.

Variable B : Browser.
Local Abbreviation W := (World B).

(** What one run of the assembler does: every step returns, the three
    high-value fields are the results of one extraction each on the primary
    locator, and the remaining groups are filled as the code writes them. *)
Lemma extractBusinessData_run (s : state W) :
  exists b s' sn sn' sp' sw' phone site,
    extractBusinessData B s = (Ok b, s') /\
    logged sn = logged s /\ logged s' = logged s /\
    extractText B SELECTORS.details_businessName sn = (Ok (businessName b), sn') /\
    extractText B SELECTORS.contact_phoneNumber sn' = (Ok phone, sp') /\
    extractHref B SELECTORS.contact_websiteUrl sp' = (Ok site, sw') /\
    phoneNumber (contact b) = Some phone /\
    website (contact b) = Some site /\
    hasWebsite (attributes b) = truthy site /\
    businessHours b = None /\
    images b = {| logoUrl := None; photoUrls := [] |} /\
    description b = None.
Proof.
  unfold ok_with, extractBusinessData, extractBusinessHours, extractImageUrls.
  enough (H : ok_with B (extractBusinessData B) s (fun b s' =>
            exists sn sn' sp' sw' phone site,
              logged sn = logged s /\ logged s' = logged s /\
              extractText B SELECTORS.details_businessName sn = (Ok (businessName b), sn') /\
              extractText B SELECTORS.contact_phoneNumber sn' = (Ok phone, sp') /\
              extractHref B SELECTORS.contact_websiteUrl sp' = (Ok site, sw') /\
              phoneNumber (contact b) = Some phone /\
              website (contact b) = Some site /\
              hasWebsite (attributes b) = truthy site /\
              businessHours b = None /\
              images b = {| logoUrl := None; photoUrls := [] |} /\
              description b = None)).
  { destruct H as (b & s' & E & sn & sn' & sp' & sw' & phone & site & H).
    exists b, s', sn, sn', sp', sw', phone, site. split; [exact E | exact H]. }
  unfold extractBusinessData, extractBusinessHours, extractImageUrls.
  apply ok_bind; [apply quiet_read | intros t1 s1 E1 L1].
  apply ok_bind; [apply quiet_read | intros t2 s2 E2 L2].
  apply ok_bind; [apply quiet_read | intros uuid s3 E3 L3].
  apply ok_bind; [apply quiet_read | intros scraped s4 E4 L4].
  apply ok_bind; [apply extractText_quiet | intros name s5 E5 L5].
  apply ok_bind; [apply quiet_read | intros mapsUrl s6 E6 L6].
  assert (s6 = s5) as ->.
  { unfold read in E6. destruct s5; cbn in E6. now inversion E6. }
  apply ok_bind; [apply extractText_quiet | intros phone s7 E7 L7].
  apply ok_bind; [apply extractAttr_quiet | intros site s8 E8 L8].
  apply ok_bind; [apply extractText_quiet | intros addr s9 E9 L9].
  apply ok_bind; [apply extractAttr_quiet | intros ratingText s10 E10 L10].
  apply ok_bind; [apply extractText_quiet | intros reviewText s11 E11 L11].
  apply ok_bind; [apply extractText_quiet | intros price s12 E12 L12].
  apply ok_bind; [apply extractText_quiet | intros type s13 E13 L13].
  apply ok_bind; [apply quiet_ret | intros hours s14 E14 L14].
  apply ok_bind; [apply quiet_ret | intros photos s15 E15 L15].
  apply ok_bind; [apply quiet_read | intros updated s16 E16 L16].
  apply ok_ret.
  inversion E14; subst. inversion E15; subst.
  exists s4, s5, s7, s8, phone, site. cbn.
  repeat split; auto; congruence.
Qed.

End AssemblerFacts.

(** Selector comparisons on the simulated page are decided by evaluation. *)
Ltac decide_selectors :=
  repeat match goal with
         | |- context [jsstring_eqb ?a ?b] =>
             let v := eval vm_compute in (jsstring_eqb a b) in
             change (jsstring_eqb a b) with v
         end.

Lemma extractHref_siteWithWebsite u (s : state SimWorld) :
  extractHref (SimBrowser (siteWithWebsite u)) SELECTORS.contact_websiteUrl s
    = (Ok u, s).
Proof.
  unfold extractHref, extractAttr, try_catch, bind, await, ret.
  cbn [query getAttribute SimBrowser]. unfold sim_query.
  cbn [site_text site_attr siteWithWebsite]. decide_selectors.
  cbn [andb]. destruct s as [w lg]. cbn. now destruct u.
Qed.

(** C1: the empty record has [hasWebsite = false] and no website; for
    every browser and state the assembler returns a record whose
    [hasWebsite] flag is the boolean "[contact.website] is a non-empty
    string"; and every string (the empty string, white space, a URL) occurs
    as the website of an assembled record, with the flag true exactly when
    the string is not empty. *)
Theorem hasWebsite_is_derived :
  (forall t1 t2,
     hasWebsite (attributes (createEmptyBusiness t1 t2))
       = websiteNonEmpty (createEmptyBusiness t1 t2)) /\
  (forall (B : Browser) s, exists b s',
     extractBusinessData B s = (Ok b, s') /\
     hasWebsite (attributes b) = websiteNonEmpty b) /\
  (forall u, exists b s',
     extractBusinessData (SimBrowser (siteWithWebsite u)) sim_start = (Ok b, s') /\
     website (contact b) = Some u /\
     hasWebsite (attributes b) = truthy u /\
     hasWebsite (attributes b) = websiteNonEmpty b).
Proof.
  split; [reflexivity|]. split.
  - intros B s.
    destruct (extractBusinessData_run B s)
      as (b & s' & _ & _ & _ & _ & phone & site & E & _ & _ & _ & _ & _ & _ & Hw & Hh & _).
    exists b, s'. split; [exact E|].
    unfold websiteNonEmpty. rewrite Hh, Hw. now destruct site.
  - intros u.
    destruct (extractBusinessData_run (SimBrowser (siteWithWebsite u)) sim_start)
      as (b & s' & _ & _ & sp' & sw' & phone & site
          & E & _ & _ & _ & _ & Ew & _ & Hw & Hh & _).
    rewrite extractHref_siteWithWebsite in Ew. inversion Ew; subst site.
    exists b, s'. split; [exact E|]. split; [exact Hw|]. split; [exact Hh|].
    unfold websiteNonEmpty. rewrite Hh, Hw. now destruct u.
Qed.

(** C10: the hours and image routines return [undefined] and [[]] in every
    state; for every browser and state the assembler returns a record with
    [businessHours] undefined, [images.photoUrls] empty and no logo; hours
    and logo are never counted as filled, the completeness score is the
    one of the seven other tracked fields out of nine, and so at most 78. *)
Theorem hours_and_images_are_stubs : forall (B : Browser) s,
  extractBusinessHours B s = (Ok None, s) /\
  extractImageUrls B s = (Ok [], s) /\
  exists b s',
    extractBusinessData B s = (Ok b, s') /\
    businessHours b = None /\
    photoUrls (images b) = [] /\
    logoUrl (images b) = None /\
    isFilled (ofHours (businessHours b)) = false /\
    isFilled (ofString (logoUrl (images b))) = false /\
    List.length (filter isFilled (trackedFields b))
      = List.length (filter isFilled (fieldsBesideHoursAndLogo b)) /\
    calculateDataCompleteness b <= 78.
Proof.
  intros B s. split; [reflexivity|]. split; [reflexivity|].
  destruct (extractBusinessData_run B s)
    as (b & s' & _ & _ & _ & _ & phone & site & E & _ & _ & _ & _ & _ & _ & _ & _ & Hh & Hi & _).
  exists b, s'. split; [exact E|].
  assert (Hc : List.length (filter isFilled (trackedFields b))
               = List.length (filter isFilled (fieldsBesideHoursAndLogo b))).
  { unfold trackedFields, fieldsBesideHoursAndLogo. rewrite Hh, Hi. cbn.
    repeat match goal with
           | |- context [isFilled ?v] => destruct (isFilled v)
           end; reflexivity. }
  assert (Hs : calculateDataCompleteness b <= 78).
  { unfold calculateDataCompleteness, completenessOf. rewrite Hc.
    assert (Hle : (List.length (filter isFilled (fieldsBesideHoursAndLogo b)) <= 7)%nat).
    { etransitivity; [apply filter_length_le | reflexivity]. }
    remember (List.length (filter isFilled (fieldsBesideHoursAndLogo b))) as k.
    clear - Hle.
    do 8 (destruct k as [|k]; [vm_compute; discriminate|]). lia. }
  rewrite Hh, Hi. cbn. repeat split; auto; rewrite <- ?Hh; auto.
Qed.

(** ** Completeness score *)

Lemma filledCount_range b : 0 <= filledCount b <= 9.
Proof.
  unfold filledCount.
  pose proof (filter_length_le isFilled (trackedFields b)) as H.
  change (List.length (trackedFields b)) with 9%nat in H. lia.
Qed.

Lemma completeness_by_count b :
  calculateDataCompleteness b = Math_round (inject_Z (filledCount b) / 9 * 100).
Proof. reflexivity. Qed.

(** The exact quotient and the double computed by JavaScript round to the
    same integer, for each of the ten possible counts. *)
Lemma completeness_binary64 :
  forallb (fun k => roundsTo (ratio64 k 9) (Math_round (inject_Z k / 9 * 100)))
          [0; 1; 2; 3; 4; 5; 6; 7; 8; 9] = true.
Proof. vm_compute. reflexivity. Qed.

(** C2: the score depends on the nine tracked fields only; it is the number
    [k] of fields that are defined, non-null and non-empty, divided by 9,
    times 100, rounded to the nearest integer (so it differs from 100k/9 by
    at most one half and lies between 0 and 100); it is 0 when no tracked
    field is filled and 100 when all nine are; records that agree on the
    tracked fields have the same score.  By [completeness_binary64] the
    double that JavaScript computes rounds to the same integer. *)
Theorem completeness_is_rounded_ratio : forall b,
  List.length (trackedFields b) = 9%nat /\
  0 <= filledCount b <= 9 /\
  calculateDataCompleteness b = Math_round (inject_Z (filledCount b) / 9 * 100) /\
  2 * Z.abs (9 * calculateDataCompleteness b - 100 * filledCount b) <= 9 /\
  0 <= calculateDataCompleteness b <= 100 /\
  (filledCount b = 0 -> calculateDataCompleteness b = 0) /\
  (filledCount b = 9 -> calculateDataCompleteness b = 100) /\
  (forall b', trackedFields b' = trackedFields b ->
              calculateDataCompleteness b' = calculateDataCompleteness b).
Proof.
  intros b. split; [reflexivity|]. split; [apply filledCount_range|].
  split; [reflexivity|].
  pose proof (filledCount_range b) as Hr. rewrite completeness_by_count.
  assert (Hk : exists k, filledCount b = Z.of_nat k /\ (k <= 9)%nat).
  { exists (Z.to_nat (filledCount b)). lia. }
  destruct Hk as (k & Hk & Hle).
  split; [|split; [|split; [|split]]].
  - rewrite Hk. clear - Hle.
    do 10 (destruct k as [|k]; [vm_compute; discriminate|]). lia.
  - rewrite Hk. clear - Hle.
    do 10 (destruct k as [|k]; [vm_compute; split; discriminate|]). lia.
  - intros ->. reflexivity.
  - intros ->. reflexivity.
  - intros b' Hb. unfold calculateDataCompleteness. now rewrite Hb.
Qed.

(** C2, witness: the empty record scores 0 and the populated one 100. *)
Lemma completeness_is_rounded_ratio_witness :
  calculateDataCompleteness (createEmptyBusiness 0 0) = 0 /\
  calculateDataCompleteness populatedBusiness = 100.
Proof.
  split.
  - apply (completeness_is_rounded_ratio (createEmptyBusiness 0 0)). reflexivity.
  - apply (completeness_is_rounded_ratio populatedBusiness). reflexivity.
Defined.

(** ** Locator resolution *)

(** C4 (as amended): the primary locators the assembler uses for business
    name, phone and website are the first entries of the three fallback
    lists, and each of these fields is the result of a single extraction on
    its primary locator; when the primary locator misses, the field is the
    empty string (and [hasWebsite] is false), whatever the later entries of
    the fallback list would resolve to. *)
Theorem extraction_uses_primary_locator_only :
  hd_error FALLBACK_SELECTORS.businessName = Some SELECTORS.details_businessName /\
  hd_error FALLBACK_SELECTORS.phoneNumber = Some SELECTORS.contact_phoneNumber /\
  hd_error FALLBACK_SELECTORS.website = Some SELECTORS.contact_websiteUrl /\
  forall (B : Browser) s,
    exists b s' sn sn' sp' sw' phone site,
      extractBusinessData B s = (Ok b, s') /\
      extractText B SELECTORS.details_businessName sn = (Ok (businessName b), sn') /\
      extractText B SELECTORS.contact_phoneNumber sn' = (Ok phone, sp') /\
      extractHref B SELECTORS.contact_websiteUrl sp' = (Ok site, sw') /\
      phoneNumber (contact b) = Some phone /\
      website (contact b) = Some site /\
      (misses B SELECTORS.details_businessName sn -> businessName b = []) /\
      (misses B SELECTORS.contact_phoneNumber sn' -> phone = []) /\
      (misses B SELECTORS.contact_websiteUrl sp' ->
         site = [] /\ hasWebsite (attributes b) = false).
Proof.
  split; [reflexivity|]. split; [reflexivity|]. split; [reflexivity|].
  intros B s.
  destruct (extractBusinessData_run B s)
    as (b & s' & sn & sn' & sp' & sw' & phone & site
        & E & _ & _ & En & Ep & Ew & Hp & Hw & Hh & _).
  exists b, s', sn, sn', sp', sw', phone, site.
  repeat (split; [assumption|]). split; [|split].
  - intros Hm. eapply extractText_miss; eauto.
  - intros Hm. eapply extractText_miss; eauto.
  - intros Hm. assert (site = []) as -> by (eapply extractAttr_miss; eauto).
    split; [reflexivity | exact Hh].
Qed.

(** C4, witness: on the page of a search that found nothing every primary
    locator misses, and name, phone and website come out empty. *)
Lemma extraction_uses_primary_locator_only_witness :
  exists b,
    fst (extractBusinessData (SimBrowser nothingFound) sim_start) = Ok b /\
    businessName b = [] /\ phoneNumber (contact b) = Some [] /\
    website (contact b) = Some [] /\ hasWebsite (attributes b) = false.
Proof.
  destruct (proj2 (proj2 (proj2 extraction_uses_primary_locator_only))
              (SimBrowser nothingFound) sim_start)
    as (b & s' & sn & sn' & sp' & sw' & phone & site
        & E & En & Ep & Ew & Hp & Hw & Mn & Mp & Mw).
  exists b. rewrite E. split; [reflexivity|].
  assert (Hn : misses (SimBrowser nothingFound) SELECTORS.details_businessName sn).
  { unfold misses. cbn. unfold sim_query. decide_selectors. exact I. }
  assert (Hph : misses (SimBrowser nothingFound) SELECTORS.contact_phoneNumber sn').
  { unfold misses. cbn. unfold sim_query. decide_selectors. exact I. }
  assert (Hws : misses (SimBrowser nothingFound) SELECTORS.contact_websiteUrl sp').
  { unfold misses. cbn. unfold sim_query. decide_selectors. exact I. }
  rewrite Hp, Hw. destruct (Mw Hws) as [-> Hf]. rewrite (Mp Hph).
  repeat split; auto.
Defined.

(** C4, the claim as stated fails: with the detail panel of a cafe open,
    the primary business-name locator misses while the last fallback [h1]
    resolves; resolution over the fallback list finds the name, the
    assembler returns an empty name. *)
Lemma fallback_locators_are_not_consulted :
  misses (SimBrowser (cafes 1 always_ready)) SELECTORS.details_businessName (sim_at 1) /\
  fst (extractTextWithFallback (SimBrowser (cafes 1 always_ready))
         FALLBACK_SELECTORS.businessName (sim_at 1)) = Ok (js "Cafe 1") /\
  exists b,
    fst (extractBusinessData (SimBrowser (cafes 1 always_ready)) (sim_at 1)) = Ok b /\
    businessName b = [].
Proof.
  split; [vm_compute; exact I|]. split; [reflexivity|].
  eexists. split; reflexivity.
Qed.

(** ** Scrolling the results feed *)

Section ScrollFacts.

Variable B : Browser.
Local Abbreviation W := (World B).

Lemma scrollLoop_unfold fuel el prev cur n :
  scrollLoop B fuel el prev cur n =
  if negb (prev =? cur) && (n <? maxScrollAttempts)
  then match fuel with
       | O => outOfFuel
       | S fuel' =>
           await (scrollToBottom B el) ;;
           await (waitForTimeout B 2000) ;;
           cur' <- await (scrollHeight B el) ;;
           logger (LogScrolling cur cur' (n + 1)) ;;
           scrollLoop B fuel' el cur cur' (n + 1)
       end
  else ret tt.
Proof. destruct fuel; reflexivity. Qed.

Lemma lastUnchanged_cons e entries :
  entries <> [] -> lastUnchanged entries -> lastUnchanged (e :: entries).
Proof.
  unfold lastUnchanged. destruct entries as [|e' entries]; [congruence|].
  intros _ H. exact H.
Qed.

(** The loop entered at attempt count [n] with enough fuel for the
    remaining [10 - n] iterations ends, after at most that many
    iterations. *)
Lemma scrollLoop_spec : forall fuel el prev cur n s,
  0 <= n <= 10 -> (Z.to_nat (10 - n) <= fuel)%nat ->
  exists r s' entries,
    scrollLoop B fuel el prev cur n s = (r, s') /\
    r <> OutOfFuel /\
    logged s' = logged s ++ entries /\
    Z.of_nat (List.length entries) <= 10 - n /\
    scrollTrace n cur entries /\
    (entries <> [] -> prev <> cur) /\
    (r = Ok tt ->
       Z.of_nat (List.length entries) = 10 - n \/
       (entries = [] /\ prev = cur) \/ lastUnchanged entries).
Proof.
  induction fuel as [|fuel IH]; intros el prev cur n s Hn Hf;
    rewrite scrollLoop_unfold; unfold maxScrollAttempts;
    destruct (negb (prev =? cur) && (n <? 10)) eqn:C.
  - apply andb_prop in C as [_ C]. apply Z.ltb_lt in C. lia.
  - exists (Ok tt), s, []. rewrite app_nil_r. cbn [List.length Z.of_nat scrollTrace].
    split; [reflexivity|]. split; [discriminate|]. split; [reflexivity|].
    split; [lia|]. split; [exact I|]. split; [congruence|].
    intros _. apply Bool.andb_false_iff in C as [C|C].
    + right. left. split; auto. apply Bool.negb_false_iff, Z.eqb_eq in C. exact C.
    + apply Z.ltb_ge in C. left. lia.
  - apply andb_prop in C as [C1 C2]. apply Z.ltb_lt in C2.
    apply Bool.negb_true_iff, Z.eqb_neq in C1.
    assert (Stop : forall e (w : W), exists (r : outcome unit) (s' : state W) entries,
              (Throw e, {| world := w; logged := logged s |}) = (r, s') /\
              r <> OutOfFuel /\ logged s' = logged s ++ entries /\
              Z.of_nat (List.length entries) <= 10 - n /\
              scrollTrace n cur entries /\ (entries <> [] -> prev <> cur) /\
              (r = Ok tt ->
                 Z.of_nat (List.length entries) = 10 - n \/
                 (entries = [] /\ prev = cur) \/ lastUnchanged entries)).
    { intros e w. exists (Throw e), {| world := w; logged := logged s |}, [].
      cbn [List.length Z.of_nat scrollTrace logged]. rewrite app_nil_r.
      split; [reflexivity|]. split; [discriminate|]. split; [reflexivity|].
      split; [lia|]. split; [exact I|]. split; [congruence|]. discriminate. }
    rewrite await_bind. destruct (scrollToBottom B el (world s)) as [[[]|e] w1]; [|apply Stop].
    rewrite await_bind. cbn [world logged].
    destruct (waitForTimeout B 2000 w1) as [[[]|e] w2]; [|apply Stop].
    rewrite await_bind. cbn [world logged].
    destruct (scrollHeight B el w2) as [[cur'|e] w3]; [|apply Stop].
    rewrite logger_bind. cbn [world logged].
    destruct (IH el cur cur' (n + 1)
                {| world := w3; logged := logged s ++ [LogScrolling cur cur' (n + 1)] |})
      as (r & s' & entries & E & Hr & Hl & Hlen & Htr & Hne & Hstop); [lia | lia |].
    exists r, s', (LogScrolling cur cur' (n + 1) :: entries).
    split; [exact E|]. split; [exact Hr|].
    split; [rewrite Hl; cbn; now rewrite <- app_assoc|].
    split; [cbn [List.length]; lia|].
    split; [cbn; exists cur'; auto|].
    split; [auto|].
    intros Hok. destruct (Hstop Hok) as [H|[[-> ->]|H]].
    + left. cbn [List.length]. lia.
    + right. right. reflexivity.
    + right. right. apply lastUnchanged_cons; auto.
      intros ->. exact H.
  - exists (Ok tt), s, []. rewrite app_nil_r. cbn [List.length Z.of_nat scrollTrace].
    split; [reflexivity|]. split; [discriminate|]. split; [reflexivity|].
    split; [lia|]. split; [exact I|]. split; [congruence|].
    intros _. apply Bool.andb_false_iff in C as [C|C].
    + right. left. split; auto. apply Bool.negb_false_iff, Z.eqb_eq in C. exact C.
    + apply Z.ltb_ge in C. left. lia.
Qed.

(** More fuel than the loop needs changes nothing. *)
Lemma scrollLoop_fuel : forall fuel fuel' el prev cur n s,
  0 <= n <= 10 -> (Z.to_nat (10 - n) <= fuel)%nat -> (Z.to_nat (10 - n) <= fuel')%nat ->
  scrollLoop B fuel el prev cur n s = scrollLoop B fuel' el prev cur n s.
Proof.
  induction fuel as [|fuel IH]; intros fuel' el prev cur n s Hn Hf Hf';
    rewrite !(scrollLoop_unfold _ el prev cur n); unfold maxScrollAttempts;
    destruct (negb (prev =? cur) && (n <? 10)) eqn:C; auto.
  - apply andb_prop in C as [_ C]. apply Z.ltb_lt in C. lia.
  - apply andb_prop in C as [_ C]. apply Z.ltb_lt in C.
    destruct fuel' as [|fuel']; [lia|].
    rewrite !await_bind. destruct (scrollToBottom B el (world s)) as [[[]|e] w1]; auto.
    rewrite !await_bind. cbn [world logged].
    destruct (waitForTimeout B 2000 w1) as [[[]|e] w2]; auto.
    rewrite !await_bind. cbn [world logged].
    destruct (scrollHeight B el w2) as [[cur'|e] w3]; auto.
    rewrite !logger_bind. apply IH; lia.
Qed.

End ScrollFacts.

(** C9: for every browser, whatever scroll extents it reports, and every
    fuel of at least 10, [scrollResults] ends (returns or throws) without
    exhausting the fuel, with the same result as for fuel 10; it logs at
    most 10 iterations, numbered from 1, each starting from the extent the
    previous one ended with; an iteration is followed by another one only
    if it changed the extent; and a run that returns has made 10
    iterations, or none, or its last iteration left the extent unchanged. *)
Theorem scrolling_terminates : forall (B : Browser) fuel s,
  (10 <= fuel)%nat ->
  exists r s' entries,
    scrollResults B fuel s = (r, s') /\
    r <> OutOfFuel /\
    scrollResults B 10 s = (r, s') /\
    logged s' = logged s ++ entries /\
    (List.length entries <= 10)%nat /\
    (exists h0, scrollTrace 0 h0 entries) /\
    (r = Ok tt ->
       List.length entries = 10%nat \/ entries = [] \/ lastUnchanged entries).
Proof.
  intros B fuel s Hf.
  assert (Stop : forall (r : outcome unit) (w : World B), r <> OutOfFuel ->
            exists r0 (s' : state (World B)) entries,
              (r, {| world := w; logged := logged s |}) = (r0, s') /\
              r0 <> OutOfFuel /\
              (r, {| world := w; logged := logged s |}) = (r0, s') /\
              logged s' = logged s ++ entries /\
              (List.length entries <= 10)%nat /\
              (exists h0, scrollTrace 0 h0 entries) /\
              (r0 = Ok tt ->
                 List.length entries = 10%nat \/ entries = [] \/ lastUnchanged entries)).
  { intros r w Hr. exists r, {| world := w; logged := logged s |}, [].
    cbn [List.length logged]. rewrite app_nil_r.
    split; [reflexivity|]. split; [exact Hr|]. split; [reflexivity|].
    split; [reflexivity|]. split; [auto with arith|].
    split; [exists 0; exact I|]. auto. }
  unfold scrollResults. rewrite !await_bind.
  destruct (query B SELECTORS.search_resultsContainer (world s)) as [[[el|]|e] w1];
    [| apply Stop; discriminate | apply Stop; discriminate].
  rewrite !await_bind. cbn [world logged].
  destruct (scrollHeight B el w1) as [[h0|e] w2]; [| apply Stop; discriminate].
  destruct (scrollLoop_spec B fuel el 0 h0 0 {| world := w2; logged := logged s |})
    as (r & s' & entries & E & Hr & Hl & Hlen & Htr & _ & Hstop); [lia | cbn; lia |].
  exists r, s', entries. split; [exact E|]. split; [exact Hr|].
  split; [rewrite <- E; apply scrollLoop_fuel; cbn; lia|].
  split; [exact Hl|]. split; [lia|]. split; [eauto|].
  intros Hok. destruct (Hstop Hok) as [H|[[H _]|H]]; [left; lia | auto | auto].
Qed.

(** C9, witness: on a feed that grows by 500 with every scroll, forever,
    the loop still ends, after exactly ten iterations. *)
Lemma scrolling_terminates_witness :
  exists r s' entries,
    scrollResults (SimBrowser (cafes 3 always_ready)) 25 sim_start = (r, s') /\
    r <> OutOfFuel /\
    logged s' = logged sim_start ++ entries /\
    (List.length entries <= 10)%nat.
Proof.
  destruct (scrolling_terminates (SimBrowser (cafes 3 always_ready)) 25 sim_start)
    as (r & s' & entries & E & Hr & _ & Hl & Hlen & _); [repeat constructor|].
  exists r, s', entries. auto.
Defined.

(** ** The loop over the result cards *)

Section CardFacts.

Variable B : Browser.
Variable config : Config.
Local Abbreviation W := (World B).

Lemma attempts_app l1 l2 : attempts (l1 ++ l2) = attempts l1 ++ attempts l2.
Proof. unfold attempts. apply flat_map_app. Qed.

(** Opening a panel and assembling its record always yields a Scrape
    Result: a failure when a step before the assembler throws, a success
    otherwise. *)
Lemma extractBusinessDetails_spec card (s : state W) :
  exists r s' l,
    extractBusinessDetails B card s = (Ok r, s') /\
    logged s' = logged s ++ l /\ attempts l = [] /\
    fst (panelSteps B card s) <> OutOfFuel /\
    logged (snd (panelSteps B card s)) = logged s /\
    (forall e s1, panelSteps B card s = (Throw e, s1) -> r = failure e) /\
    (forall s1, panelSteps B card s = (Ok tt, s1) ->
       exists b s2, extractBusinessData B s1 = (Ok b, s2) /\
         success r = true /\ business r = Some b /\ error r = None).
Proof.
  assert (Fail : forall e (w : W) (u : outcome unit * state W),
            u = (Throw e, {| world := w; logged := logged s |}) ->
            exists r s' l,
              failure e = r /\
              {| world := w; logged := logged s ++ [LogDetailsFailed e] |} = s' /\
              logged s' = logged s ++ l /\ attempts l = [] /\
              fst u <> OutOfFuel /\ logged (snd u) = logged s /\
              (forall e' s1, u = (Throw e', s1) -> r = failure e') /\
              (forall s1, u = (Ok tt, s1) ->
                 exists b s2, extractBusinessData B s1 = (Ok b, s2) /\
                   success r = true /\ business r = Some b /\ error r = None)).
  { intros e w u ->. do 3 eexists. split; [reflexivity|]. split; [reflexivity|].
    split; [reflexivity|]. split; [reflexivity|]. split; [discriminate|].
    split; [reflexivity|]. split; [|discriminate].
    intros e' s1 H. now inversion H. }
  unfold extractBusinessDetails, panelSteps, try_catch, bind, await.
  destruct (element_click B card (world s)) as [[[]|e] w1]; cbn [world logged].
  2:{ destruct (Fail e w1 _ eq_refl) as (r & s' & l & <- & <- & H). do 3 eexists.
      split; [reflexivity | exact H]. }
  destruct (waitForSelector B SELECTORS.details_panel 10000 w1) as [[[]|e] w2];
    cbn [world logged].
  2:{ destruct (Fail e w2 _ eq_refl) as (r & s' & l & <- & <- & H). do 3 eexists.
      split; [reflexivity | exact H]. }
  destruct (waitForTimeout B 1500 w2) as [[[]|e] w3]; cbn [world logged].
  2:{ destruct (Fail e w3 _ eq_refl) as (r & s' & l & <- & <- & H). do 3 eexists.
      split; [reflexivity | exact H]. }
  destruct (extractBusinessData_run B {| world := w3; logged := logged s |})
    as (b & s4 & _ & _ & _ & _ & _ & _ & E & _ & L & _).
  rewrite E. unfold read. destruct (now B (world s4)) as [t w5]. unfold ret.
  do 2 eexists. exists []. split; [reflexivity|]. cbn [logged].
  split; [rewrite app_nil_r; exact L|]. split; [reflexivity|].
  split; [discriminate|]. split; [reflexivity|]. split; [discriminate|].
  intros s1 H. inversion H; subst. exists b, s4. auto.
Qed.

Lemma cardPrelude_spec total i (s : state W) :
  fst (cardPrelude B config total i s) <> OutOfFuel /\
  logged (snd (cardPrelude B config total i s))
    = logged s ++ [LogProcessing (i + 1) total].
Proof.
  unfold cardPrelude. rewrite logger_bind.
  destruct (0 <? i)%nat.
  - split; [apply await_finishes | now rewrite await_logged].
  - split; [discriminate | reflexivity].
Qed.

(** One iteration of the loop, step by step. *)
Lemma processCard_unfold total i card prior (s : state W) :
  processCard B config total i card prior s =
  match cardPrelude B config total i s with
  | (Ok _, s1) =>
      match extractBusinessDetails B card s1 with
      | (Ok result, s2) =>
          (Ok (prior ++ [result]),
           if ((i + 1) mod 5 =? 0)%nat
           then {| world := world s2; logged := logged s2 ++ [LogProcessed (i + 1) total] |}
           else s2)
      | (Throw e, s2) =>
          (Ok (prior ++ [failure e]),
           {| world := world s2; logged := logged s2 ++ [LogCardFailed e i] |})
      | (OutOfFuel, s2) => (OutOfFuel, s2)
      end
  | (Throw e, s1) =>
      (Ok (prior ++ [failure e]),
       {| world := world s1; logged := logged s1 ++ [LogCardFailed e i] |})
  | (OutOfFuel, s1) => (OutOfFuel, s1)
  end.
Proof.
  unfold processCard, cardPrelude, try_catch, bind, logger, ret. cbn [world logged].
  destruct ((if (0 <? i)%nat
             then await (humanDelay B (rateLimiting_minDelay config)
                                      (rateLimiting_maxDelay config))
             else fun s0 => (Ok tt, s0))
              {| world := world s; logged := logged s ++ [LogProcessing (i + 1) total] |})
    as [[[]|e|] s1]; try reflexivity.
  destruct (extractBusinessDetails B card s1) as [[r|e|] s2]; try reflexivity.
  destruct ((i + 1) mod 5 =? 0)%nat; reflexivity.
Qed.

Lemma openPanel_unfold total i card (s : state W) :
  openPanel B config total i card s =
  match cardPrelude B config total i s with
  | (Ok _, s1) => panelSteps B card s1
  | (Throw e, s1) => (Throw e, s1)
  | (OutOfFuel, s1) => (OutOfFuel, s1)
  end.
Proof. reflexivity. Qed.

(** Every card gets exactly one Scrape Result, appended to the results so
    far; the only [LogProcessing] line written is the card's own. *)
Lemma processCard_spec total i card (s : state W) :
  exists r s1 l,
    (forall prior,
       processCard B config total i card prior s = (Ok (prior ++ [r]), s1)) /\
    resultFor B config total i card s r /\
    logged s1 = logged s ++ LogProcessing (i + 1) total :: l /\
    attempts l = [].
Proof.
  pose proof (processCard_unfold total i card) as Hp.
  pose proof (openPanel_unfold total i card s) as Ho.
  destruct (cardPrelude_spec total i s) as [Hfin Hlog].
  destruct (cardPrelude B config total i s) as [[[]|e|] s0] eqn:Ec; cbn [fst snd] in *.
  - destruct (extractBusinessDetails_spec card s0)
      as (r & s2 & l & E & L & A & Pfin & Plog & Pfail & Pok).
    exists r.
    exists (if ((i + 1) mod 5 =? 0)%nat
            then {| world := world s2;
                    logged := logged s2 ++ [LogProcessed (i + 1) total] |}
            else s2).
    exists (l ++ if ((i + 1) mod 5 =? 0)%nat then [LogProcessed (i + 1) total] else []).
    split; [intros prior; rewrite Hp, Ec, E; reflexivity|].
    split.
    + unfold resultFor. rewrite Ho.
      destruct (panelSteps B card s0) as [[[]|e|] sp] eqn:Ep.
      * right. destruct (Pok sp eq_refl) as (b & sb & Eb & H).
        exists sp, b, sb. auto.
      * left. exists e, sp. split; [reflexivity | exact (Pfail e sp eq_refl)].
      * now cbn in Pfin.
    + rewrite attempts_app, A.
      destruct ((i + 1) mod 5 =? 0)%nat; cbn [logged]; rewrite L, Hlog;
        rewrite <- ?app_assoc; cbn; rewrite ?app_nil_r; auto.
  - exists (failure e),
      {| world := world s0; logged := logged s0 ++ [LogCardFailed e i] |},
      [LogCardFailed e i].
    split; [intros prior; rewrite Hp, Ec; reflexivity|].
    split; [left; exists e, s0; rewrite Ho; auto|].
    cbn [logged]. rewrite Hlog, <- app_assoc. auto.
  - congruence.
Qed.

(** The loop yields one result per card, in order, whatever happens to
    individual cards, and logs each card once, in order. *)
Lemma processCards_spec total : forall cards i prior (s : state W),
  exists rs s' l,
    processCards B config total i cards prior s = (Ok (prior ++ rs), s') /\
    cardRun B config total i cards s rs s' /\
    List.length rs = List.length cards /\
    logged s' = logged s ++ l /\
    attempts l = seq (i + 1) (List.length cards).
Proof.
  induction cards as [|card cards IH]; intros i prior s.
  - exists [], s, []. cbn. rewrite !app_nil_r. repeat split; constructor.
  - destruct (processCard_spec total i card s) as (r & s1 & l1 & E1 & R1 & L1 & A1).
    destruct (IH (S i) (prior ++ [r]) s1) as (rs & s2 & l2 & E2 & R2 & N2 & L2 & A2).
    exists (r :: rs), s2, (LogProcessing (i + 1) total :: l1 ++ l2).
    split; [|split; [|split; [|split]]].
    + cbn [processCards]. rewrite (bind_ok _ _ _ _ _ _ (E1 prior)), E2.
      now rewrite <- app_assoc.
    + econstructor; eauto.
    + cbn. now rewrite N2.
    + rewrite L2, L1, <- app_assoc. reflexivity.
    + cbn [attempts flat_map]. fold (attempts (l1 ++ l2)).
      rewrite attempts_app, A1, A2. cbn.
      replace (S i + 1)%nat with (S (i + 1)) by lia.
      replace (i + 1)%nat with (S i) by lia. reflexivity.
Qed.

End CardFacts.

(** ** The search session *)

Section SessionFacts.

Variable B : Browser.
Variable config : Config.
Local Abbreviation W := (World B).

Ltac enter H :=
  let E := fresh "E" in
  apply (bind_ok_inv B) in H as (? & ? & E & H);
  rewrite (try_bind B), E; cbv beta iota.

(** Once the search is submitted, the session is the rest of its [try]
    block under the outer [catch]. *)
Lemma searchBusinesses_from_open fuel query location limit (s s1 : state W) :
  sessionOpen B config query location limit s = (Ok tt, s1) ->
  searchBusinesses B config fuel query location limit s =
  try_catch (afterSearch B config fuel limit)
            (fun e => logger (LogSearchFailed e) ;; throw e) s1.
Proof.
  intros H. unfold searchBusinesses, sessionOpen in *.
  apply (bind_ok_inv B) in H as (t & s0 & E0 & H).
  rewrite (bind_ok B _ _ _ _ _ E0).
  enter H. enter H. enter H. enter H.
  rewrite (try_bind B), H. reflexivity.
Qed.

Lemma waitForSearchResults_no_results fuel (s1 s2 s3 : state W) e el :
  awaitCards B fuel s1 = (Throw e, s2) ->
  await (query B SELECTORS.search_noResultsMessage) s2 = (Ok (Some el), s3) ->
  waitForSearchResults B fuel s1 = (Throw noResultsError, s3).
Proof.
  intros Hw Hq. unfold waitForSearchResults.
  change (try_catch (awaitCards B fuel)
            (fun e0 => noResults <- await (query B SELECTORS.search_noResultsMessage) ;;
                       match noResults with
                       | Some _ => throw noResultsError
                       | None => throw e0
                       end) s1 = (Throw noResultsError, s3)).
  rewrite (try_throw B _ _ _ _ _ Hw), (bind_ok B _ _ _ _ _ Hq). reflexivity.
Qed.

Lemma slice0_nonneg {A} (l : list A) limit :
  0 <= limit ->
  slice0 l limit = firstn (Z.to_nat limit) l /\
  List.length (slice0 l limit) = Nat.min (Z.to_nat limit) (List.length l).
Proof.
  intros H. unfold slice0.
  destruct (limit <? 0) eqn:C; [apply Z.ltb_lt in C; lia|].
  assert (E : firstn (Z.to_nat (Z.min limit (Z.of_nat (List.length l)))) l
              = firstn (Z.to_nat limit) l).
  { destruct (Z.le_ge_cases limit (Z.of_nat (List.length l))) as [Hle|Hge].
    - now rewrite Z.min_l.
    - rewrite Z.min_r, Nat2Z.id by lia. rewrite firstn_all.
      symmetry. apply firstn_all2. lia. }
  rewrite E. split; [reflexivity | apply length_firstn].
Qed.

Lemma extractBusinessCards_run limit (s1 : state W) cards w2 :
  queryAll B SELECTORS.searchResults_businessCard (world s1) = (Returned cards, w2) ->
  extractBusinessCards B limit s1 =
  (Ok (slice0 cards limit),
   {| world := w2;
      logged := logged s1 ++ [LogCardsFound (List.length cards)
                                (List.length (slice0 cards limit))] |}).
Proof.
  intros H. unfold extractBusinessCards. rewrite await_bind, H. reflexivity.
Qed.

Lemma processCards_app total : forall cards1 cards2 i prior (s : state W),
  processCards B config total i (cards1 ++ cards2) prior s =
  bind (processCards B config total i cards1 prior)
       (fun rs => processCards B config total (i + List.length cards1) cards2 rs) s.
Proof.
  induction cards1 as [|card cards1 IH]; intros cards2 i prior s.
  - cbn. now rewrite Nat.add_0_r.
  - cbn [processCards app List.length]. unfold bind.
    destruct (processCard B config total i card prior s) as [[rs|e|] s1]; auto.
    rewrite IH. unfold bind.
    now replace (S i + List.length cards1)%nat
      with (i + S (List.length cards1))%nat by lia.
Qed.

End SessionFacts.

(** C5 (as amended): for every browser, when the search was submitted, the
    wait for result cards throws and the page shows the no-results
    indicator, [waitForSearchResults] throws the error "No results found
    for search query", and the session logs the failure and throws that
    error to its caller; it does not return a sequence of results. *)
Theorem no_results_is_thrown :
  forall (B : Browser) config fuel q loc limit s s1 e s2 el s3,
    sessionOpen B config q loc limit s = (Ok tt, s1) ->
    awaitCards B fuel s1 = (Throw e, s2) ->
    await (query B SELECTORS.search_noResultsMessage) s2 = (Ok (Some el), s3) ->
    waitForSearchResults B fuel s1 = (Throw noResultsError, s3) /\
    searchBusinesses B config fuel q loc limit s =
      (Throw noResultsError,
       {| world := world s3;
          logged := logged s3 ++ [LogSearchFailed noResultsError] |}).
Proof.
  intros B config fuel q loc limit s s1 e s2 el s3 Ho Hw Hq.
  pose proof (waitForSearchResults_no_results B fuel s1 s2 s3 e el Hw Hq) as Hn.
  split; [exact Hn|].
  rewrite (searchBusinesses_from_open B config fuel q loc limit s s1 Ho).
  unfold afterSearch. rewrite try_bind, Hn. reflexivity.
Qed.

(** C5, witness: a search for cafes that finds nothing. *)
Lemma no_results_is_thrown_witness :
  fst (searchBusinesses (SimBrowser nothingFound) defaultConfig 10
         (js "cafe") (js "Tel Aviv") 20 sim_start) = Throw noResultsError.
Proof.
  pose (Bn := SimBrowser nothingFound).
  pose (s1 := snd (sessionOpen Bn defaultConfig (js "cafe") (js "Tel Aviv") 20 sim_start)).
  pose (s2 := snd (awaitCards Bn 10 s1)).
  pose (s3 := snd (await (query Bn SELECTORS.search_noResultsMessage) s2)).
  destruct (no_results_is_thrown Bn defaultConfig 10 (js "cafe") (js "Tel Aviv") 20
              sim_start s1 timeoutError s2 BannerEl s3) as [_ H].
  - vm_compute. reflexivity.
  - vm_compute. reflexivity.
  - vm_compute. reflexivity.
  - unfold Bn in H. rewrite H. reflexivity.
Defined.

(** C5, the claim as stated fails: on a page that shows the no-results
    indicator the session throws; it does not return the empty sequence. *)
Lemma no_results_is_not_an_empty_sequence :
  site_noResults nothingFound = true /\
  fst (searchBusinesses (SimBrowser nothingFound) defaultConfig 10
         (js "cafe") (js "Tel Aviv") 20 sim_start) = Throw noResultsError /\
  fst (searchBusinesses (SimBrowser nothingFound) defaultConfig 10
         (js "cafe") (js "Tel Aviv") 20 sim_start) <> Ok [].
Proof.
  split; [reflexivity|]. split; [vm_compute; reflexivity | vm_compute; discriminate].
Qed.

(** [slice] with a negative end counts from the end of the array. *)
Lemma slice0_negative {A} (a b c : A) : slice0 [a; b; c] (-1) = [a; b].
Proof. reflexivity. Qed.

(** C6: for every browser, a limit [n >= 0] and [m] cards on the page once
    the results are there, the loop runs on exactly the first [min n m]
    cards in DOM order and on no other: it starts on the cards numbered 1
    to [min n m] and produces exactly [min n m] Scrape Results, one per
    card and in the same order; the session returns these results when the
    page then closes (and throws the error of [page.close] when it does
    not). *)
Theorem session_processes_first_limit_cards :
  forall (B : Browser) config fuel q loc limit s s1 cards w2,
    0 <= limit ->
    sessionStart B config fuel q loc limit s = (Ok tt, s1) ->
    queryAll B SELECTORS.searchResults_businessCard (world s1) = (Returned cards, w2) ->
    exists results s3 l,
      List.length results = Nat.min (Z.to_nat limit) (List.length cards) /\
      cardRun B config (Nat.min (Z.to_nat limit) (List.length cards)) 0
        (firstn (Nat.min (Z.to_nat limit) (List.length cards)) cards)
        {| world := w2;
           logged := logged s1 ++ [LogCardsFound (List.length cards)
                                     (Nat.min (Z.to_nat limit) (List.length cards))] |}
        results s3 /\
      logged s3 = logged s1 ++ LogCardsFound (List.length cards)
                                 (Nat.min (Z.to_nat limit) (List.length cards)) :: l /\
      attempts l = seq 1 (Nat.min (Z.to_nat limit) (List.length cards)) /\
      (forall w', page_close B (snd (now B (world s3))) = (Returned tt, w') ->
         searchBusinesses B config fuel q loc limit s =
           (Ok results,
            {| world := w';
               logged := logged s3 ++ [LogCompleted (List.length results)] |})) /\
      (forall e w', page_close B (snd (now B (world s3))) = (Raised e, w') ->
         searchBusinesses B config fuel q loc limit s =
           (Throw e,
            {| world := w';
               logged := logged s3 ++ [LogCompleted (List.length results);
                                       LogSearchFailed e] |})).
Proof.
  intros B config fuel q loc limit s s1 cards w2 Hlim Hstart Hq.
  unfold sessionStart in Hstart.
  apply bind_ok_inv in Hstart as (u & sa & Hopen & Hwait). destruct u.
  rewrite (searchBusinesses_from_open B config fuel q loc limit s sa Hopen).
  unfold afterSearch. rewrite try_bind, Hwait.
  rewrite try_bind, (extractBusinessCards_run B limit s1 cards w2 Hq).
  destruct (slice0_nonneg cards limit Hlim) as [-> Hlen].
  rewrite length_firstn.
  set (k := Nat.min (Z.to_nat limit) (List.length cards)).
  assert (Hk : firstn k cards = firstn (Z.to_nat limit) cards).
  { unfold k. destruct (Nat.le_ge_cases (Z.to_nat limit) (List.length cards)) as [H|H].
    - now rewrite Nat.min_l.
    - rewrite Nat.min_r, firstn_all by exact H. symmetry. now apply firstn_all2. }
  rewrite <- Hk.
  set (s2 := {| world := w2; logged := logged s1 ++ [LogCardsFound (List.length cards) k] |}).
  destruct (processCards_spec B config k (firstn k cards) 0 [] s2)
    as (rs & s3 & l & E & R & N & L & A).
  rewrite try_bind, E. cbn [app].
  rewrite try_bind, read_run.
  rewrite try_bind, logger_run. cbn [world logged].
  exists rs, s3, l.
  assert (Nk : List.length rs = k).
  { rewrite N, Hk. apply length_firstn. }
  split; [exact Nk|]. split; [exact R|].
  split; [rewrite L; unfold s2; cbn; now rewrite <- app_assoc|].
  split; [rewrite A, <- N, Nk; reflexivity|].
  split.
  - intros w' Hc. rewrite try_bind. erewrite await_run by (cbn [world]; exact Hc).
    reflexivity.
  - intros e w' Hc. rewrite try_bind. unfold await at 1. cbn [world logged].
    rewrite Hc. cbn. now rewrite <- app_assoc.
Qed.

(** C6, witness: with limit 5 and 12 cards on the page, exactly 5 results
    are produced and returned. *)
Lemma session_processes_first_limit_cards_witness :
  exists results s',
    searchBusinesses (SimBrowser (cafes 12 always_ready)) defaultConfig 10
      (js "cafe") (js "Tel Aviv") 5 sim_start = (Ok results, s') /\
    List.length results = 5%nat.
Proof.
  pose (Bc := SimBrowser (cafes 12 always_ready)).
  pose (s1 := snd (sessionStart Bc defaultConfig 10 (js "cafe") (js "Tel Aviv") 5 sim_start)).
  destruct (session_processes_first_limit_cards Bc defaultConfig 10
              (js "cafe") (js "Tel Aviv") 5 sim_start s1
              (map CardEl (seq 1 12)) (world s1))
    as (results & s3 & l & N & _ & _ & _ & Hret & _).
  - lia.
  - vm_compute. reflexivity.
  - vm_compute. reflexivity.
  - eexists results, _. split; [apply Hret; reflexivity | exact N].
Defined.

(** C7: for every browser and every list of cards, the loop returns one
    result for each card before, at and after any given card, in card
    order; when opening that card's panel throws (the click fails, or the
    detail panel is not ready within its timeout), the result at the card's
    position is the failure carrying that error, marked retryable; and the
    loop starts on every card of the list, the later ones included. *)
Theorem card_failure_is_isolated :
  forall (B : Browser) config total cards1 card cards2 s,
    exists rs1 r rs2 s3 l,
      processCards B config total 0 (cards1 ++ card :: cards2) [] s
        = (Ok (rs1 ++ r :: rs2), s3) /\
      processCards B config total 0 cards1 [] s
        = (Ok rs1, snd (processCards B config total 0 cards1 [] s)) /\
      List.length rs1 = List.length cards1 /\
      List.length rs2 = List.length cards2 /\
      resultFor B config total (List.length cards1) card
        (snd (processCards B config total 0 cards1 [] s)) r /\
      (forall e s',
         openPanel B config total (List.length cards1) card
           (snd (processCards B config total 0 cards1 [] s)) = (Throw e, s') ->
         r = failure e /\ success r = false /\ retryable r = Some true) /\
      logged s3 = logged s ++ l /\
      attempts l = seq 1 (List.length (cards1 ++ card :: cards2)).
Proof.
  intros B config total cards1 card cards2 s.
  destruct (processCards_spec B config total cards1 0 [] s)
    as (rs1 & s1 & l1 & E1 & _ & N1 & L1 & A1).
  destruct (processCard_spec B config total (List.length cards1) card s1)
    as (r & s2 & l2 & E2 & R2 & L2 & A2).
  destruct (processCards_spec B config total cards2 (S (List.length cards1)) (rs1 ++ [r]) s2)
    as (rs2 & s3 & l3 & E3 & _ & N3 & L3 & A3).
  destruct (processCards_spec B config total (cards1 ++ card :: cards2) 0 [] s)
    as (rs & s3' & l & E & _ & _ & L & A).
  cbn [app] in E1.
  assert (Ew : processCards B config total 0 (cards1 ++ card :: cards2) [] s
               = (Ok (rs1 ++ r :: rs2), s3)).
  { rewrite processCards_app, (bind_ok B _ _ _ _ _ E1). cbn [processCards Nat.add].
    rewrite (bind_ok B _ _ _ _ _ (E2 rs1)), E3. now rewrite <- app_assoc. }
  exists rs1, r, rs2, s3, l. rewrite E1. cbn [snd].
  split; [exact Ew|]. split; [reflexivity|]. split; [exact N1|]. split; [exact N3|].
  split; [exact R2|]. split; [|split].
  - intros e s' Ho. destruct R2 as [(e' & sa & Ha & ->) | (sa & b & sb & Ha & _)].
    + rewrite Ho in Ha. inversion Ha; subst. auto.
    + rewrite Ho in Ha. discriminate.
  - rewrite Ew in E. inversion E; subst. exact L.
  - exact A.
Qed.

(** C7, witness: five cards, the panel of the third never becomes ready;
    the third result is the timeout failure and the session still returns
    the results of the fourth and fifth card. *)
Lemma card_failure_is_isolated_witness :
  exists rs1 rs2 s3,
    processCards (SimBrowser (cafes 5 third_only)) defaultConfig 5 0
      (map CardEl (seq 1 5)) [] sim_start
      = (Ok (rs1 ++ failure timeoutError :: rs2), s3) /\
    List.length rs1 = 2%nat /\ List.length rs2 = 2%nat.
Proof.
  destruct (card_failure_is_isolated (SimBrowser (cafes 5 third_only)) defaultConfig 5
              [CardEl 1; CardEl 2] (CardEl 3) [CardEl 4; CardEl 5] sim_start)
    as (rs1 & r & rs2 & s3 & l & E & _ & N1 & N2 & _ & Hf & _).
  edestruct (Hf timeoutError) as [-> _].
  - vm_compute. reflexivity.
  - exists rs1, rs2, s3. split; [exact E | split; [exact N1 | exact N2]].
Defined.

(* ================================================================= *)
(** * Further properties of the code *)

(** ** Review-count parsing *)

Section ReviewFacts.
Import Regex RegexFacts.



Lemma space_not_digit c : isSpace c = true -> isDigit c = false.
Proof.
  intros H. apply space_not_numChar in H. unfold numChar in H.
  now apply Bool.orb_false_iff in H.
Qed.




Lemma digitVal_range c : isDigit c = true -> 0 <= digitVal c <= 9.
Proof.
  unfold isDigit, digitVal. intros H. apply andb_prop in H as [H1 H2].
  apply N.leb_le in H1, H2. lia.
Qed.

Lemma digitsValue_from acc ds :
  0 <= acc -> forallb isDigit ds = true ->
  0 <= fold_left (fun a c => 10 * a + digitVal c) ds acc.
Proof.
  revert acc. induction ds as [|c ds IH]; cbn [fold_left forallb]; intros acc Ha H; auto.
  apply andb_prop in H as [Hc H]. apply IH; auto.
  pose proof (digitVal_range c Hc). lia.
Qed.

Lemma digitsValue_nonneg ds : forallb isDigit ds = true -> 0 <= digitsValue ds.
Proof. intros H. apply digitsValue_from; [lia | exact H]. Qed.


End ReviewFacts.



(** ** Parsers and the labels the selectors are built around *)

Lemma noDigit_In pre c : noDigit pre = true -> In c pre -> isDigit c = false.
Proof.
  unfold noDigit. rewrite forallb_forall. intros H Hin.
  apply H in Hin. now apply Bool.negb_true_iff in Hin.
Qed.

Lemma In_shorter_prefix {A} : forall (a b x y : list A) c,
  a ++ c :: x = b ++ y -> (List.length a < List.length b)%nat -> In c b.
Proof.
  induction a as [|h a IH]; intros [|h' b] x y c E Hl; simpl in *; try lia.
  - inversion E. now left.
  - inversion E. right. apply (IH b x y c); [assumption | lia].
Qed.

Lemma decimal_starts_with_digit num :
  isDecimal num -> exists c rest, num = c :: rest /\ isDigit c = true.
Proof.
  intros (ip & dot & fp & -> & Hne & Hip & _).
  destruct ip as [|c ip]; [congruence|]. simpl in Hip.
  apply andb_prop in Hip as [Hc _]. exists c, (ip ++ dot ++ fp). auto.
Qed.

Lemma parseFloat_decimal num : isDecimal num -> parseFloat num <> None.
Proof.
  intros H. destruct (decimal_starts_with_digit num H) as (c & rest & -> & Hc).
  unfold parseFloat. simpl. rewrite Hc. destruct (spanDigits rest). discriminate.
Qed.

(** X2: a label that has no digit before a decimal number followed by
    optional white space and [star] parses to exactly that number; so the
    label [DYNAMIC_SELECTORS.ratingValue] is built around, and the selector
    itself, give the rating back. *)
Theorem parseRating_of_label : forall pre num ws post,
  noDigit pre = true -> isDecimal num -> forallb isSpace ws = true ->
  parseRating (pre ++ num ++ ws ++ js "star" ++ post) = parseFloat num /\
  parseFloat num <> None /\
  parseRating (num ++ js " stars") = parseFloat num /\
  parseRating (DYNAMIC_SELECTORS.ratingValue num) = parseFloat num.
Proof.
  assert (Main : forall pre num ws post,
    noDigit pre = true -> isDecimal num -> forallb isSpace ws = true ->
    parseRating (pre ++ num ++ ws ++ js "star" ++ post) = parseFloat num).
  { intros pre num ws post Hpre Hnum Hws.
    set (s := pre ++ num ++ ws ++ js "star" ++ post).
    assert (Hr : ratingAt s pre num).
    { split; [exact Hnum|]. exists ws, post. auto. }
    unfold parseRating, Regex.search.
    destruct (Regex.search_from ratingPattern 0 s) as [[j segs]|] eqn:E; cbn [group1].
    - apply RegexFacts.search_from_some in E as (pre0 & Hat & _ & Hmin).
      assert (Hr0 : ratingAt s pre0 (List.concat (firstn 3 segs))).
      { apply ratingAt_match_at. eauto. }
      assert (Hle : (List.length pre0 <= List.length pre)%nat).
      { apply ratingAt_match_at in Hr as (segs' & Hat' & _). eauto. }
      assert (Hl : List.length pre = List.length pre0).
      { destruct (Nat.eq_dec (List.length pre) (List.length pre0)) as [|Hne]; auto.
        exfalso.
        destruct (decimal_starts_with_digit _ (proj1 Hr0)) as (c & rest & Ec & Hc).
        destruct Hr0 as [_ (ws0 & post0 & _ & Es)]. rewrite Ec in Es.
        unfold s in Es. symmetry in Es. simpl in Es.
        apply In_shorter_prefix in Es; [|lia].
        rewrite (noDigit_In pre c Hpre Es) in Hc. discriminate. }
      now rewrite (ratingAt_unique s pre0 _ pre num Hr0 Hr Hl).
    - apply ratingAt_match_at in Hr as (segs & Hat & _).
      exfalso. exact (RegexFacts.search_from_none _ _ _ E _ _ Hat). }
  intros pre num ws post Hpre Hnum Hws.
  split; [now apply Main|]. split; [now apply parseFloat_decimal|]. split.
  - apply (Main [] num (js " ") (js "s")); auto.
  - unfold DYNAMIC_SELECTORS.ratingValue.
    replace (js "span[aria-label=" ++ [34%N] ++ num ++ js " stars" ++ [34%N] ++ js "]")
      with ((js "span[aria-label=" ++ [34%N]) ++ num ++ js " " ++ js "star"
            ++ (js "s" ++ [34%N] ++ js "]"))
      by (now rewrite <- !app_assoc).
    apply Main; auto.
Qed.

(** X2, witness. *)
Lemma parseRating_of_label_witness :
  parseRating (DYNAMIC_SELECTORS.ratingValue (js "3.9")) = parseFloat (js "3.9").
Proof.
  apply (parseRating_of_label [] (js "3.9") [] []); try reflexivity.
  exists (js "3"), (js "."), (js "9").
  split; [reflexivity|]. split; [discriminate|]. split; [reflexivity|].
  split; [right; reflexivity | reflexivity].
Defined.



(** ** Trimming and the city of an address *)

Lemma trimStart_split s :
  exists p, s = p ++ trimStart s /\ forallb isSpace p = true /\
            startsOutside isSpace (trimStart s).
Proof.
  induction s as [|c s (p & E & Hp & Ho)]; simpl.
  - exists []. auto.
  - destruct (isSpace c) eqn:Hc.
    + exists (c :: p). simpl. rewrite Hc, Hp. split; [now rewrite <- E | auto].
    + exists []. simpl. auto.
Qed.

Lemma forallb_rev {A} (f : A -> bool) l : forallb f (rev l) = forallb f l.
Proof.
  induction l as [|x l IH]; simpl; auto.
  rewrite forallb_app, IH. simpl. rewrite Bool.andb_true_r. apply Bool.andb_comm.
Qed.

(** [trim] removes white space, and only white space, from both ends. *)
Lemma trim_split s :
  exists p q, s = p ++ trim s ++ q /\ forallb isSpace p = true /\
              forallb isSpace q = true /\ trimmed (trim s).
Proof.
  unfold trim.
  destruct (trimStart_split s) as (p & E & Hp & Ho).
  destruct (trimStart_split (rev (trimStart s))) as (q & E' & Hq & Ho').
  set (t := trimStart s) in *. set (u := trimStart (rev t)) in *.
  assert (Et : t = rev u ++ rev q).
  { rewrite <- (rev_involutive t), E'. apply rev_app_distr. }
  exists p, (rev q). split; [now rewrite <- Et|]. split; [exact Hp|].
  split; [now rewrite forallb_rev|]. split.
  - destruct (rev u) as [|c ru] eqn:Er; [exact I|].
    rewrite Et in Ho. exact Ho.
  - unfold endsOutside. now rewrite rev_involutive.
Qed.

Lemma trimStart_fixed s : startsOutside isSpace s -> trimStart s = s.
Proof. destruct s as [|c s]; simpl; auto. now intros ->. Qed.

Lemma trim_trimmed s : trimmed s -> trim s = s.
Proof.
  intros [H1 H2]. unfold trim. rewrite (trimStart_fixed s H1).
  unfold endsOutside in H2. rewrite (trimStart_fixed _ H2). apply rev_involutive.
Qed.

Lemma trim_spaces s : forallb isSpace s = true -> trim s = [].
Proof.
  intros H. unfold trim.
  assert (E : trimStart s = []).
  { induction s as [|c s IH]; simpl in *; auto.
    apply andb_prop in H as [Hc H]. rewrite Hc. auto. }
  now rewrite E.
Qed.

Lemma split_comma_nocomma : forall x cur,
  noComma x = true -> split_comma cur x = [rev cur ++ x].
Proof.
  induction x as [|c x IH]; intros cur H; simpl.
  - now rewrite app_nil_r.
  - simpl in H. apply andb_prop in H as [Hc H].
    apply Bool.negb_true_iff in Hc. rewrite Hc, (IH _ H). simpl.
    now rewrite <- app_assoc.
Qed.

Lemma split_comma_app : forall a cur c t,
  isChar "," c = true ->
  split_comma cur (a ++ c :: t) = split_comma cur a ++ split_comma [] t.
Proof.
  induction a as [|x a IH]; intros cur c t Hc; simpl.
  - now rewrite Hc.
  - destruct (isChar "," x); [simpl; f_equal|]; now apply IH.
Qed.

Lemma split_comma_parts : forall s cur,
  noComma cur = true ->
  Forall (fun p => noComma p = true) (split_comma cur s).
Proof.
  induction s as [|c s IH]; intros cur H; simpl.
  - constructor; [|constructor]. unfold noComma. now rewrite forallb_rev.
  - destruct (isChar "," c) eqn:Hc.
    + constructor; [unfold noComma; now rewrite forallb_rev | now apply IH].
    + apply IH. simpl. now rewrite Hc.
Qed.

Lemma trim_noComma s : noComma s = true -> noComma (trim s) = true.
Proof.
  intros H. destruct (trim_split s) as (p & q & E & _). rewrite E in H.
  unfold noComma in *. rewrite !forallb_app in H.
  apply andb_prop in H as [_ H]. now apply andb_prop in H as [H _].
Qed.

(** X4: the city is the second-to-last comma-separated part of the
    address, trimmed: an address without a comma has no city; with one
    comma the city is the part before it; in general it is the part between
    the last two commas.  The city never contains a comma and never has
    white space at either end. *)
Theorem extractCityFromAddress_segments :
  (forall address, noComma address = true -> extractCityFromAddress address = []) /\
  (forall a last, noComma a = true -> noComma last = true ->
     extractCityFromAddress (a ++ js "," ++ last) = trim a) /\
  (forall a seg last, noComma seg = true -> noComma last = true ->
     extractCityFromAddress (a ++ js "," ++ seg ++ js "," ++ last) = trim seg) /\
  (forall address,
     noComma (extractCityFromAddress address) = true /\
     trimmed (extractCityFromAddress address)).
Proof.
  split; [|split; [|split]].
  - intros address H. unfold extractCityFromAddress.
    now rewrite (split_comma_nocomma address [] H).
  - intros a last Ha Hl. unfold extractCityFromAddress.
    change (a ++ js "," ++ last) with (a ++ 44%N :: last).
    rewrite split_comma_app by reflexivity.
    rewrite (split_comma_nocomma a [] Ha), (split_comma_nocomma last [] Hl).
    reflexivity.
  - intros a seg last Hs Hl. unfold extractCityFromAddress.
    change (a ++ js "," ++ seg ++ js "," ++ last) with (a ++ 44%N :: (seg ++ 44%N :: last)).
    rewrite !split_comma_app by reflexivity.
    rewrite (split_comma_nocomma seg [] Hs), (split_comma_nocomma last [] Hl).
    cbn [rev app]. rewrite !length_app. cbn [List.length].
    replace (2 <=? List.length (split_comma [] a) + 2)%nat with true
      by (symmetry; apply Nat.leb_le; lia).
    replace (List.length (split_comma [] a) + 2 - 2)%nat
      with (List.length (split_comma [] a) + 0)%nat by lia.
    now rewrite app_nth2_plus.
  - intros address. unfold extractCityFromAddress.
    set (parts := split_comma [] address).
    destruct (2 <=? List.length parts)%nat; [|split; [reflexivity | split; exact I]].
    assert (Hp : noComma (nth (List.length parts - 2) parts []) = true).
    { pose proof (split_comma_parts address [] eq_refl) as HF. fold parts in HF.
      rewrite Forall_forall in HF.
      destruct (nth_in_or_default (List.length parts - 2) parts []) as [Hin| ->];
        [now apply HF | reflexivity]. }
    split; [now apply trim_noComma|].
    destruct (trim_split (nth (List.length parts - 2) parts [])) as (_ & _ & _ & _ & _ & H).
    exact H.
Qed.

(** X4, witness. *)
Lemma extractCityFromAddress_segments_witness :
  extractCityFromAddress (js "Dizengoff 123, Tel Aviv , Israel") = js "Tel Aviv".
Proof.
  change (js "Dizengoff 123, Tel Aviv , Israel")
    with (js "Dizengoff 123" ++ js "," ++ js " Tel Aviv " ++ js "," ++ js " Israel").
  rewrite (proj1 (proj2 (proj2 extractCityFromAddress_segments))
             (js "Dizengoff 123") (js " Tel Aviv ") (js " Israel") eq_refl eq_refl).
  reflexivity.
Defined.

(** X5: whatever the page holds, the text [extractText] returns has no
    white space at either end; when the locator resolves and the element
    has text, the result is that text trimmed, so text made of white space
    only comes back as the empty string; the log is left as it was. *)
Theorem extractText_is_trimmed : forall (B : Browser) selector s,
  exists t s',
    extractText B selector s = (Ok t, s') /\
    trimmed t /\
    logged s' = logged s /\
    (forall el w1 raw w2,
       query B selector (world s) = (Returned (Some el), w1) ->
       textContent B el w1 = (Returned (Some raw), w2) ->
       t = trim raw /\ world s' = w2 /\
       (forallb isSpace raw = true -> t = [])).
Proof.
  intros B selector s.
  unfold extractText, try_catch, bind, await, ret.
  assert (Empty : trimmed []) by (split; exact I).
  destruct (query B selector (world s)) as [[[el|]|e] w]; cbn [world logged].
  - destruct (textContent B el w) as [[[raw|]|e] w'] eqn:Et; cbn [world logged].
    + do 2 eexists. split; [reflexivity|]. cbn [world logged].
      assert (Eo : orElse (trim raw) [] = trim raw).
      { unfold orElse. now destruct (trim raw). }
      rewrite Eo. split.
      * destruct (trim_split raw) as (_ & _ & _ & _ & _ & H). exact H.
      * split; [reflexivity|]. intros el' w1 raw' w2 Hq Ht.
        inversion Hq; subst. rewrite Et in Ht. inversion Ht; subst.
        split; [reflexivity|]. split; [reflexivity | apply trim_spaces].
    + do 2 eexists. split; [reflexivity|]. split; [exact Empty|].
      split; [reflexivity|]. intros el' w1 raw' w2 Hq Ht.
      inversion Hq; subst. rewrite Et in Ht. discriminate.
    + do 2 eexists. split; [reflexivity|]. split; [exact Empty|].
      split; [reflexivity|]. intros el' w1 raw' w2 Hq Ht.
      inversion Hq; subst. rewrite Et in Ht. discriminate.
  - do 2 eexists. split; [reflexivity|]. split; [exact Empty|].
    split; [reflexivity|]. intros el' w1 raw' w2 Hq. discriminate.
  - do 2 eexists. split; [reflexivity|]. split; [exact Empty|].
    split; [reflexivity|]. intros el' w1 raw' w2 Hq. discriminate.
Qed.

(** X5, witness: the phone number of a cafe is stored with white space
    around it and extracted without. *)
Lemma extractText_is_trimmed_witness :
  fst (extractText (SimBrowser (cafes 1 always_ready)) SELECTORS.contact_phoneNumber
         (sim_at 1)) = Ok (trim (js " 03-5551234 ")).
Proof.
  destruct (extractText_is_trimmed (SimBrowser (cafes 1 always_ready))
              SELECTORS.contact_phoneNumber (sim_at 1))
    as (t & s' & E & _ & _ & H).
  rewrite E. cbn [fst].
  destruct (H (NodeEl 1 SELECTORS.contact_phoneNumber) (world (sim_at 1))
              (js " 03-5551234 ") (world (sim_at 1))) as [-> _];
    [vm_compute; reflexivity | vm_compute; reflexivity | reflexivity].
Defined.

(** ** The assembled record *)

Lemma spanDigits_digits : forall s d r,
  spanDigits s = (d, r) -> forallb isDigit d = true /\ s = d ++ r.
Proof.
  induction s as [|c s IH]; simpl; intros d r H.
  - inversion H. auto.
  - destruct (isDigit c) eqn:Hc.
    + destruct (spanDigits s) as [d' r']. inversion H; subst.
      destruct (IH d' r eq_refl) as [Hd ->]. simpl. now rewrite Hc, Hd.
    + inversion H. auto.
Qed.

Lemma parseInt_nonneg g n : parseInt g = Some n -> 0 <= n.
Proof.
  unfold parseInt. destruct (spanDigits g) as [d r] eqn:E. simpl.
  destruct (spanDigits_digits _ _ _ E) as [Hd _].
  destruct d as [|c d]; [discriminate|]. intros H. inversion H.
  now apply digitsValue_nonneg.
Qed.

Lemma parseFloat_nonneg g x : parseFloat g = Some x -> (0 <= x)%Q.
Proof.
  unfold parseFloat. destruct (spanDigits g) as [ip r] eqn:E.
  destruct (spanDigits_digits _ _ _ E) as [Hip _].
  destruct ip as [|c ip]; [discriminate|].
  match goal with |- Some (Qred ?q) = Some x -> _ => set (v := q) end.
  intros H. assert (Hx : x = Qred v) by congruence. subst x.
  apply Qle_trans with v; [|apply Qle_lteq; right; symmetry; apply Qred_correct].
  unfold v, Qle. cbn [Qnum Qden]. rewrite Z.mul_1_r.
  assert (Hfp : forallb isDigit
            match r with
            | [] => []
            | c0 :: r' => if isChar "." c0 then fst (spanDigits r') else []
            end = true).
  { destruct r as [|c0 r']; [reflexivity|]. destruct (isChar "." c0); [|reflexivity].
    destruct (spanDigits r') as [d' r''] eqn:E'.
    now destruct (spanDigits_digits _ _ _ E'). }
  rewrite Z.mul_0_l. apply digitsValue_nonneg.
  now rewrite forallb_app, Hip, Hfp.
Qed.

Lemma parseRating_nonneg s x : parseRating s = Some x -> (0 <= x)%Q.
Proof.
  unfold parseRating. destruct (group1 3 (search ratingPattern s)); [|discriminate].
  apply parseFloat_nonneg.
Qed.

Lemma parseReviewCount_nonneg s n : parseReviewCount s = Some n -> 0 <= n.
Proof.
  unfold parseReviewCount. destruct (group1 1 (search reviewPattern s)); [|discriminate].
  apply parseInt_nonneg.
Qed.

Lemma extractText_trimmed (B : Browser) selector s t s' :
  extractText B selector s = (Ok t, s') -> trimmed t.
Proof.
  unfold extractText, try_catch, bind, await, ret.
  assert (Empty : trimmed []) by (split; exact I).
  destruct (query B selector (world s)) as [[[el|]|e] w]; cbn [world logged];
    try (intros H; inversion H; exact Empty).
  destruct (textContent B el w) as [[[raw|]|e] w']; cbn [world logged];
    try (intros H; inversion H; exact Empty).
  intros H. inversion H.
  assert (Eo : orElse (trim raw) [] = trim raw).
  { unfold orElse. now destruct (trim raw). }
  rewrite Eo. destruct (trim_split raw) as (_ & _ & _ & _ & _ & Ht). exact Ht.
Qed.

(** X6: for every browser and state, the record the assembler returns has
    an id, a business type that is never empty ([Unknown] when the page
    gives none) and is its only category, the country [Israel], the same
    address under [location] and [contact], the city derived from that
    address, a name, phone, address and type without white space at either
    end, and a rating and review count that are absent or not negative;
    the assembler writes nothing to the log. *)
Theorem assembled_record_invariants : forall (B : Browser) s,
  exists b s',
    extractBusinessData B s = (Ok b, s') /\
    logged s' = logged s /\
    id b <> None /\
    businessType b <> [] /\
    businessCategories b = [businessType b] /\
    country (location b) = js "Israel" /\
    contact_fullAddress (contact b) = Some (loc_fullAddress (location b)) /\
    city (location b) = extractCityFromAddress (loc_fullAddress (location b)) /\
    trimmed (businessName b) /\
    trimmed (loc_fullAddress (location b)) /\
    trimmed (businessType b) /\
    (exists phone, phoneNumber (contact b) = Some phone /\ trimmed phone) /\
    (forall x, rating (metrics b) = Some x -> (0 <= x)%Q) /\
    (forall n, reviewCount (metrics b) = Some n -> 0 <= n).
Proof.
  intros B s.
  enough (H : ok_with B (extractBusinessData B) s (fun b s' =>
            logged s' = logged s /\
            id b <> None /\
            businessType b <> [] /\
            businessCategories b = [businessType b] /\
            country (location b) = js "Israel" /\
            contact_fullAddress (contact b) = Some (loc_fullAddress (location b)) /\
            city (location b) = extractCityFromAddress (loc_fullAddress (location b)) /\
            trimmed (businessName b) /\
            trimmed (loc_fullAddress (location b)) /\
            trimmed (businessType b) /\
            (exists phone, phoneNumber (contact b) = Some phone /\ trimmed phone) /\
            (forall x, rating (metrics b) = Some x -> (0 <= x)%Q) /\
            (forall n, reviewCount (metrics b) = Some n -> 0 <= n))).
  { destruct H as (b & s' & E & H). exists b, s'. split; [exact E | exact H]. }
  unfold extractBusinessData, extractBusinessHours, extractImageUrls.
  apply ok_bind; [apply quiet_read | intros t1 s1 E1 L1].
  apply ok_bind; [apply quiet_read | intros t2 s2 E2 L2].
  apply ok_bind; [apply quiet_read | intros uuid s3 E3 L3].
  apply ok_bind; [apply quiet_read | intros scraped s4 E4 L4].
  apply ok_bind; [apply extractText_quiet | intros name s5 E5 L5].
  apply ok_bind; [apply quiet_read | intros mapsUrl s6 E6 L6].
  apply ok_bind; [apply extractText_quiet | intros phone s7 E7 L7].
  apply ok_bind; [apply extractAttr_quiet | intros site s8 E8 L8].
  apply ok_bind; [apply extractText_quiet | intros addr s9 E9 L9].
  apply ok_bind; [apply extractAttr_quiet | intros ratingText s10 E10 L10].
  apply ok_bind; [apply extractText_quiet | intros reviewText s11 E11 L11].
  apply ok_bind; [apply extractText_quiet | intros price s12 E12 L12].
  apply ok_bind; [apply extractText_quiet | intros type s13 E13 L13].
  apply ok_bind; [apply quiet_ret | intros hours s14 E14 L14].
  apply ok_bind; [apply quiet_ret | intros photos s15 E15 L15].
  apply ok_bind; [apply quiet_read | intros updated s16 E16 L16].
  apply ok_ret. cbn.
  assert (Ea : orElse addr [] = addr) by (unfold orElse; now destruct addr).
  rewrite Ea.
  split; [congruence|]. split; [discriminate|].
  split; [unfold orElse; destruct type; discriminate|].
  split; [reflexivity|]. split; [reflexivity|]. split; [reflexivity|].
  split; [reflexivity|].
  split; [eapply extractText_trimmed; eauto|].
  split; [eapply extractText_trimmed; eauto|].
  split.
  { unfold orElse. destruct (truthy type); [eapply extractText_trimmed; eauto|].
    split; vm_compute; reflexivity. }
  split; [exists phone; split; [reflexivity | eapply extractText_trimmed; eauto]|].
  split; [apply parseRating_nonneg | apply parseReviewCount_nonneg].
Qed.

(** ** The shape of Scrape Results *)

Section ResultFacts.

Variable B : Browser.
Variable config : Config.
Local Abbreviation W := (World B).

Lemma failure_wellFormed e : wellFormedResult (failure e).
Proof. unfold wellFormedResult. simpl. repeat split; discriminate. Qed.

Lemma extractBusinessDetails_wellFormed card (s : state W) r s' :
  extractBusinessDetails B card s = (Ok r, s') -> wellFormedResult r.
Proof.
  unfold extractBusinessDetails, try_catch, bind, await.
  destruct (element_click B card (world s)) as [[[]|e] w1]; cbn [world logged];
    [|intros H; inversion H; apply failure_wellFormed].
  destruct (waitForSelector B SELECTORS.details_panel 10000 w1) as [[[]|e] w2];
    cbn [world logged]; [|intros H; inversion H; apply failure_wellFormed].
  destruct (waitForTimeout B 1500 w2) as [[[]|e] w3]; cbn [world logged];
    [|intros H; inversion H; apply failure_wellFormed].
  destruct (extractBusinessData_run B {| world := w3; logged := logged s |})
    as (b & s4 & _ & _ & _ & _ & _ & _ & E & _).
  rewrite E. unfold read. destruct (now B (world s4)) as [t w5]. unfold ret.
  intros H. inversion H. unfold wellFormedResult. simpl.
  repeat split; discriminate.
Qed.

Lemma processCard_wellFormed total i card prior (s : state W) rs s' :
  Forall wellFormedResult prior ->
  processCard B config total i card prior s = (Ok rs, s') ->
  Forall wellFormedResult rs.
Proof.
  intros Hp. rewrite processCard_unfold.
  destruct (cardPrelude B config total i s) as [[[]|e|] s0]; try discriminate.
  - destruct (extractBusinessDetails B card s0) as [[r|e|] s2] eqn:E; try discriminate.
    + intros H. inversion H. apply Forall_app. split; auto.
      constructor; [|constructor]. eapply extractBusinessDetails_wellFormed; eauto.
    + intros H. inversion H. apply Forall_app. split; auto.
      constructor; [apply failure_wellFormed | constructor].
  - intros H. inversion H. apply Forall_app. split; auto.
    constructor; [apply failure_wellFormed | constructor].
Qed.

Lemma processCards_wellFormed total : forall cards i prior (s : state W) rs s',
  Forall wellFormedResult prior ->
  processCards B config total i cards prior s = (Ok rs, s') ->
  Forall wellFormedResult rs.
Proof.
  induction cards as [|card cards IH]; intros i prior s rs s' Hp H.
  - inversion H. now subst.
  - cbn [processCards] in H. apply bind_ok_inv in H as (rs1 & s1 & E1 & H).
    eapply IH; [|exact H]. eapply processCard_wellFormed; eauto.
Qed.

Lemma try_ok_inv {A} (m : M W A) h (s : state W) a s' :
  try_catch m h s = (Ok a, s') ->
  m s = (Ok a, s') \/ exists e s1, m s = (Throw e, s1) /\ h e s1 = (Ok a, s').
Proof.
  unfold try_catch. destruct (m s) as [[x|e|] s1]; intros H.
  - now left.
  - right. eauto.
  - discriminate.
Qed.

End ResultFacts.

(** X7: every Scrape Result the scraper produces has one of two shapes: a
    success with a record and a duration and neither error nor retryable
    flag, or a failure with an error message, [retryable: true] and neither
    record nor duration.  This holds for the result of one card, for the
    results the loop adds and for the sequence a session returns; a
    thrown value that is not an [Error] is reported as [Unknown error]. *)
Theorem scrape_results_are_well_formed :
  forall (B : Browser) config,
    (forall card s r s',
       extractBusinessDetails B card s = (Ok r, s') -> wellFormedResult r) /\
    (forall total cards i prior s rs s',
       Forall wellFormedResult prior ->
       processCards B config total i cards prior s = (Ok rs, s') ->
       Forall wellFormedResult rs) /\
    (forall fuel q loc limit s rs s',
       searchBusinesses B config fuel q loc limit s = (Ok rs, s') ->
       Forall wellFormedResult rs) /\
    error (failure NonError) = Some (js "Unknown error").
Proof.
  intros B config. split; [|split; [|split; [|reflexivity]]].
  - apply extractBusinessDetails_wellFormed.
  - apply processCards_wellFormed.
  - intros fuel q loc limit s rs s' H. unfold searchBusinesses in H.
    apply bind_ok_inv in H as (t & s0 & _ & H).
    apply try_ok_inv in H as [H | (e & s1 & _ & H)].
    + do 6 (apply bind_ok_inv in H as (? & ? & _ & H)).
      apply bind_ok_inv in H as (cards & sc & _ & H).
      apply bind_ok_inv in H as (results & sr & Hr & H).
      do 3 (apply bind_ok_inv in H as (? & ? & _ & H)).
      inversion H; subst.
      eapply processCards_wellFormed; [|exact Hr]. constructor.
    + discriminate.
Qed.

(** X7, witness: the five results of a session over twelve cafes. *)
Lemma scrape_results_are_well_formed_witness :
  exists rs,
    fst (searchBusinesses (SimBrowser (cafes 12 third_only)) defaultConfig 10
           (js "cafe") (js "Tel Aviv") 5 sim_start) = Ok rs /\
    Forall wellFormedResult rs.
Proof.
  destruct (searchBusinesses (SimBrowser (cafes 12 third_only)) defaultConfig 10
              (js "cafe") (js "Tel Aviv") 5 sim_start) as [[rs|e|] s'] eqn:E;
    [| vm_compute in E; discriminate | vm_compute in E; discriminate].
  exists rs. split; [reflexivity|].
  exact (proj1 (proj2 (proj2 (scrape_results_are_well_formed
           (SimBrowser (cafes 12 third_only)) defaultConfig)))
         10%nat (js "cafe") (js "Tel Aviv") 5 sim_start rs s' E).
Defined.

(** X6, witness: the record of the first cafe. *)
Lemma assembled_record_invariants_witness :
  exists b,
    fst (extractBusinessData (SimBrowser (cafes 1 always_ready)) (sim_at 1)) = Ok b /\
    businessType b = js "Unknown" /\
    rating (metrics b) = Some (9 # 2) /\ (0 <= 9 # 2)%Q.
Proof.
  destruct (assembled_record_invariants (SimBrowser (cafes 1 always_ready)) (sim_at 1))
    as (b & s' & E & _ & _ & _ & _ & _ & _ & _ & _ & _ & _ & _ & Hr & _).
  exists b. rewrite E. split; [reflexivity|].
  vm_compute in E. inversion E; subst b.
  split; [reflexivity|]. split; [reflexivity|]. apply Hr. reflexivity.
Defined.

(** ** Steady code: it ends and only appends to the log *)

Section SteadyFacts.

Variable B : Browser.
Variable config : Config.
Local Abbreviation W := (World B).

Lemma steady_ret {A} (a : A) : steady (@ret W A a).
Proof. intros s. split; [discriminate|]. exists []. cbn. now rewrite app_nil_r. Qed.

Lemma steady_throw {A} e : steady (@throw W A e).
Proof. intros s. split; [discriminate|]. exists []. cbn. now rewrite app_nil_r. Qed.

Lemma steady_await {A} (c : call W A) : steady (await c).
Proof.
  intros s. split; [apply await_finishes|]. exists [].
  now rewrite await_logged, app_nil_r.
Qed.

Lemma steady_read {A} (f : W -> A * W) : steady (read f).
Proof.
  intros s. rewrite read_run. split; [discriminate|]. exists []. cbn.
  now rewrite app_nil_r.
Qed.

Lemma steady_logger entry : steady (@logger W entry).
Proof. intros s. split; [discriminate|]. exists [entry]. reflexivity. Qed.

Lemma steady_bind {A C} (m : M W A) (k : A -> M W C) :
  steady m -> (forall a, steady (k a)) -> steady (bind m k).
Proof.
  intros Hm Hk s. destruct (Hm s) as [Hf (l & Hl)]. unfold bind.
  destruct (m s) as [[a|e|] s1]; cbn [fst snd] in *.
  - destruct (Hk a s1) as [Hf' (l' & Hl')]. split; [exact Hf'|].
    exists (l ++ l'). now rewrite Hl', Hl, app_assoc.
  - split; [discriminate | eauto].
  - congruence.
Qed.

Lemma steady_try {A} (m : M W A) (h : jserror -> M W A) :
  steady m -> (forall e, steady (h e)) -> steady (try_catch m h).
Proof.
  intros Hm Hh s. destruct (Hm s) as [Hf (l & Hl)]. unfold try_catch.
  destruct (m s) as [[a|e|] s1]; cbn [fst snd] in *.
  - split; [discriminate | eauto].
  - destruct (Hh e s1) as [Hf' (l' & Hl')]. split; [exact Hf'|].
    exists (l ++ l'). now rewrite Hl', Hl, app_assoc.
  - congruence.
Qed.

Lemma steady_quiet {A} (m : M W A) : quiet B m -> steady m.
Proof.
  intros H s. destruct (H s) as (a & s' & E & L). rewrite E. cbn.
  split; [discriminate|]. exists []. now rewrite app_nil_r.
Qed.

Ltac steady_steps :=
  repeat lazymatch goal with
         | |- steady (ret _) => apply steady_ret
         | |- steady (throw _) => apply steady_throw
         | |- steady (await _) => apply steady_await
         | |- steady (read _) => apply steady_read
         | |- steady (logger _) => apply steady_logger
         | |- steady (bind _ _) => apply steady_bind; [|intros ?]
         | |- steady (try_catch _ _) => apply steady_try; [|intros ?]
         | |- steady (match ?a with Some _ => _ | None => _ end) => destruct a
         end.

Lemma steady_performSearch q loc : steady (performSearch B q loc).
Proof. unfold performSearch. steady_steps. Qed.

Lemma steady_scrollResults fuel : (10 <= fuel)%nat -> steady (scrollResults B fuel).
Proof.
  intros Hf. unfold scrollResults. steady_steps.
  intros s.
  match goal with
  | |- context [scrollLoop B fuel ?el 0 ?h 0 s] =>
      destruct (scrollLoop_spec B fuel el 0 h 0 s)
        as (r & s' & entries & E & Hr & Hl & _); [lia | cbn; lia |]
  end.
  rewrite E. cbn. split; [exact Hr | eauto].
Qed.

Lemma steady_waitForSearchResults fuel :
  (10 <= fuel)%nat -> steady (waitForSearchResults B fuel).
Proof.
  intros Hf. unfold waitForSearchResults. steady_steps.
  now apply steady_scrollResults.
Qed.

Lemma steady_extractBusinessCards limit : steady (extractBusinessCards B limit).
Proof. unfold extractBusinessCards. steady_steps. Qed.

Lemma steady_processCards total cards i prior :
  steady (processCards B config total i cards prior).
Proof.
  intros s. destruct (processCards_spec B config total cards i prior s)
    as (rs & s' & l & E & _ & _ & L & _).
  rewrite E. cbn. split; [discriminate | eauto].
Qed.

Lemma steady_searchBusinesses fuel q loc limit :
  (10 <= fuel)%nat -> steady (searchBusinesses B config fuel q loc limit).
Proof.
  intros Hf. unfold searchBusinesses. steady_steps.
  - apply steady_performSearch.
  - now apply steady_waitForSearchResults.
  - apply steady_extractBusinessCards.
  - apply steady_processCards.
Qed.

Lemma bind_throw_inv {A C} (m : M W A) (k : A -> M W C) (s : state W) e s' :
  bind m k s = (Throw e, s') ->
  m s = (Throw e, s') \/ exists a s1, m s = (Ok a, s1) /\ k a s1 = (Throw e, s').
Proof.
  unfold bind. destruct (m s) as [[a|e0|] s1]; intros H.
  - right. eauto.
  - left. inversion H. reflexivity.
  - discriminate.
Qed.

(** A failure before the wait for results reaches the outer [catch]. *)
Lemma searchBusinesses_open_fails fuel q loc limit (s s1 : state W) e :
  sessionOpen B config q loc limit s = (Throw e, s1) ->
  searchBusinesses B config fuel q loc limit s =
  (Throw e, {| world := world s1; logged := logged s1 ++ [LogSearchFailed e] |}).
Proof.
  intros H. unfold searchBusinesses, sessionOpen in *.
  rewrite read_bind in *. rewrite try_bind, logger_run.
  rewrite logger_bind in H. cbn [world logged] in *.
  set (s0 := {| world := snd (now B (world s));
                logged := logged s ++ [LogStarting q loc limit] |}) in *.
  apply bind_throw_inv in H as [H | (u1 & sa & E1 & H)];
    [rewrite try_bind, H; reflexivity|].
  rewrite try_bind, E1.
  apply bind_throw_inv in H as [H | (u2 & sb & E2 & H)];
    [rewrite try_bind, H; reflexivity|].
  rewrite try_bind, E2.
  apply bind_throw_inv in H as [H | (u3 & sc & E3 & H)];
    [rewrite try_bind, H; reflexivity|].
  rewrite try_bind, E3.
  rewrite try_bind, H. reflexivity.
Qed.

End SteadyFacts.

(** X8: the other ways out of [waitForSearchResults]: when the cards
    appear and scrolling ends normally it returns; when the wait or the
    scrolling throws and the page shows no no-results indicator, the error
    thrown is the original one; when looking for the indicator itself
    throws, that later error is the one thrown.  With fuel 10 or more it
    never runs out of fuel. *)
Theorem waitForSearchResults_outcomes : forall (B : Browser) fuel s,
  (10 <= fuel)%nat ->
  fst (waitForSearchResults B fuel s) <> OutOfFuel /\
  (forall s1, awaitCards B fuel s = (Ok tt, s1) ->
     waitForSearchResults B fuel s = (Ok tt, s1)) /\
  (forall e s1 w2,
     awaitCards B fuel s = (Throw e, s1) ->
     query B SELECTORS.search_noResultsMessage (world s1) = (Returned None, w2) ->
     waitForSearchResults B fuel s = (Throw e, {| world := w2; logged := logged s1 |})) /\
  (forall e s1 e' w2,
     awaitCards B fuel s = (Throw e, s1) ->
     query B SELECTORS.search_noResultsMessage (world s1) = (Raised e', w2) ->
     waitForSearchResults B fuel s = (Throw e', {| world := w2; logged := logged s1 |})).
Proof.
  intros B fuel s Hf.
  split; [apply (steady_waitForSearchResults B fuel Hf s)|].
  unfold waitForSearchResults.
  change (await (waitForSelector B SELECTORS.searchResults_businessCard 15000);;
          await (waitForTimeout B 2000);; scrollResults B fuel)
    with (awaitCards B fuel).
  split; [|split].
  - intros s1 H. now rewrite (try_ok B _ _ _ _ _ H).
  - intros e s1 w2 H Hq. rewrite (try_throw B _ _ _ _ _ H), await_bind, Hq. reflexivity.
  - intros e s1 e' w2 H Hq. rewrite (try_throw B _ _ _ _ _ H), await_bind, Hq. reflexivity.
Qed.

(** X8, witness: cards never appear on a page without the indicator, and
    the timeout of the wait is what the caller sees. *)
Lemma waitForSearchResults_outcomes_witness :
  fst (waitForSearchResults
         (SimBrowser {| site_cards := 0; site_noResults := false;
                        site_text := fun _ _ => None; site_attr := fun _ _ _ => None;
                        site_panelNeverReady := fun _ => false;
                        site_height := fun _ => 0 |}) 10 sim_start)
    = Throw timeoutError.
Proof.
  match goal with |- fst (waitForSearchResults ?b _ _) = _ => set (Bq := b) end.
  destruct (waitForSearchResults_outcomes Bq 10 sim_start) as (_ & _ & H & _);
    [repeat constructor|].
  rewrite (H timeoutError sim_start (world sim_start)); reflexivity.
Defined.

(** X9: a session run with fuel 10 or more always ends: it returns or
    throws.  It only appends to the log.  When it returns, the last log line
    is the completion line with the number of results returned; when it
    throws, the last log line is the failure line carrying the error thrown;
    and an error thrown before the wait for results (page creation,
    navigation, the search box) is passed to the caller unchanged. *)
Theorem session_ends_with_one_outcome :
  forall (B : Browser) config fuel q loc limit s,
    (10 <= fuel)%nat ->
    exists r s' l,
      searchBusinesses B config fuel q loc limit s = (r, s') /\
      r <> OutOfFuel /\
      logged s' = logged s ++ l /\
      (forall rs, r = Ok rs ->
         exists l', logged s' = l' ++ [LogCompleted (List.length rs)]) /\
      (forall e, r = Throw e ->
         exists l', logged s' = l' ++ [LogSearchFailed e]) /\
      (forall e s1, sessionOpen B config q loc limit s = (Throw e, s1) ->
         r = Throw e /\ world s' = world s1).
Proof.
  intros B config fuel q loc limit s Hf.
  destruct (steady_searchBusinesses B config fuel q loc limit Hf s) as [Hfin (l & Hl)].
  destruct (searchBusinesses B config fuel q loc limit s) as [r s'] eqn:E.
  cbn [fst snd] in *. exists r, s', l.
  split; [reflexivity|]. split; [exact Hfin|]. split; [exact Hl|].
  split; [|split].
  - intros rs ->. unfold searchBusinesses in E.
    apply bind_ok_inv in E as (t & s0 & _ & E).
    apply try_ok_inv in E as [E | (e & s1 & _ & E)].
    + do 8 (apply bind_ok_inv in E as (? & ? & _ & E)).
      apply bind_ok_inv in E as (? & sa & _ & E).
      apply bind_ok_inv in E as (? & sb & Elog & E).
      apply bind_ok_inv in E as (? & sc & Eclose & E).
      inversion E; subst. inversion Elog; subst.
      pose proof (await_logged B (page_close B)
                    {| world := world sa;
                       logged := logged sa ++ [LogCompleted (List.length rs)] |}) as Hc.
      rewrite Eclose in Hc. cbn in Hc. eauto.
    + apply bind_ok_inv in E as (? & ? & _ & E). discriminate.
  - intros e ->. unfold searchBusinesses in E. rewrite read_bind in E.
    unfold try_catch in E.
    match type of E with (let (_, _) := ?body ?st in _) = _ =>
      destruct (body st) as [[rs|e0|] s1] end; try discriminate.
    inversion E; subst. cbn. eauto.
  - intros e s1 H.
    rewrite (searchBusinesses_open_fails B config fuel q loc limit s s1 e H) in E.
    inversion E; subst. auto.
Qed.

(** X9, witness: a session over three cafes returns two results and ends
    its log with the completion line. *)
Lemma session_ends_with_one_outcome_witness :
  exists l',
    logged (snd (searchBusinesses (SimBrowser (cafes 3 always_ready)) defaultConfig 10
                   (js "cafe") (js "Tel Aviv") 2 sim_start))
      = l' ++ [LogCompleted 2].
Proof.
  destruct (session_ends_with_one_outcome (SimBrowser (cafes 3 always_ready))
              defaultConfig 10 (js "cafe") (js "Tel Aviv") 2 sim_start)
    as (r & s' & l & E & _ & _ & Hok & _); [repeat constructor|].
  rewrite E. cbn [snd].
  destruct r as [rs|e|]; [| vm_compute in E; discriminate | vm_compute in E; discriminate].
  assert (Hn : List.length rs = 2%nat).
  { vm_compute in E. inversion E; reflexivity. }
  rewrite <- Hn. apply Hok. reflexivity.
Defined.

(** X10: whatever integer the limit is, the cards handed to the loop are a
    prefix of the cards on the page, in page order: the first [limit] of
    them (all of them when there are fewer) for a limit of zero or more,
    all but the last [-limit] for a negative limit, and none when the limit
    is zero or at most minus the number of cards.  The two numbers of the
    log line are the number of cards on the page and the number kept. *)
Theorem extractBusinessCards_keeps_a_prefix :
  forall (B : Browser) limit s cards w1,
    queryAll B SELECTORS.searchResults_businessCard (world s) = (Returned cards, w1) ->
    exists kept dropped,
      extractBusinessCards B limit s =
        (Ok kept,
         {| world := w1;
            logged := logged s ++ [LogCardsFound (List.length cards) (List.length kept)] |}) /\
      cards = kept ++ dropped /\
      (0 <= limit ->
         List.length kept = Nat.min (Z.to_nat limit) (List.length cards)) /\
      (limit < 0 ->
         List.length kept = (List.length cards - Z.to_nat (- limit))%nat) /\
      (limit = 0 \/ limit <= - Z.of_nat (List.length cards) -> kept = []).
Proof.
  intros B limit s cards w1 Hq.
  exists (slice0 cards limit), (skipn (List.length (slice0 cards limit)) cards).
  split; [now apply extractBusinessCards_run|].
  assert (Hs : exists k, slice0 cards limit = firstn k cards /\
                         (0 <= limit -> k = Z.to_nat limit) /\
                         (limit < 0 -> k = (List.length cards - Z.to_nat (- limit))%nat)).
  { unfold slice0. destruct (limit <? 0) eqn:C.
    - apply Z.ltb_lt in C. eexists. split; [reflexivity|]. split; lia.
    - apply Z.ltb_ge in C.
      destruct (slice0_nonneg cards limit C) as [E _]. unfold slice0 in E.
      assert (Cb : (limit <? 0) = false) by (apply Z.ltb_ge; exact C).
      rewrite Cb in E. rewrite E. eexists. split; [reflexivity|]. split; lia. }
  destruct Hs as (k & -> & Hpos & Hneg).
  rewrite length_firstn.
  split; [|split; [|split]].
  - replace (skipn (Nat.min k (List.length cards)) cards) with (skipn k cards).
    + symmetry. apply firstn_skipn.
    + destruct (Nat.le_ge_cases k (List.length cards)) as [H|H].
      * now rewrite Nat.min_l.
      * rewrite Nat.min_r by exact H. rewrite skipn_all. now apply skipn_all2.
  - intros H. now rewrite (Hpos H).
  - intros H. rewrite (Hneg H). lia.
  - intros [-> | H].
    + rewrite (Hpos (Z.le_refl 0)). reflexivity.
    + destruct (Z.lt_ge_cases limit 0) as [Hlt|Hge].
      * rewrite (Hneg Hlt).
        replace (List.length cards - Z.to_nat (- limit))%nat with 0%nat by lia.
        reflexivity.
      * assert (limit = 0) by lia. subst. rewrite (Hpos (Z.le_refl 0)).
        reflexivity.
Qed.

(** X10, witness: a limit of -2 on three cards keeps the first card. *)
Lemma extractBusinessCards_keeps_a_prefix_witness :
  fst (extractBusinessCards (SimBrowser (cafes 3 always_ready)) (-2) sim_start)
    = Ok [CardEl 1].
Proof.
  destruct (extractBusinessCards_keeps_a_prefix (SimBrowser (cafes 3 always_ready)) (-2)
              sim_start (map CardEl (seq 1 3)) (world sim_start) eq_refl)
    as (kept & dropped & E & Hc & _ & Hn & _).
  rewrite E. cbn [fst]. specialize (Hn ltac:(lia)).
  destruct kept as [|c [|c' kept]]; cbn in Hn; try discriminate.
  cbn in Hc. inversion Hc. reflexivity.
Defined.

(** ** Random delays and viewports *)

Lemma random_index_in_range rnd u (n : Z) :
  roundsLikeBinary64 rnd -> isRandom u -> 1 <= n ->
  0 <= Qfloor (rnd (u * inject_Z n)%Q) <= n - 1.
Proof.
  intros Hr [Hu0 Hu1] Hn.
  assert (HN : (1 <= inject_Z n)%Q).
  { change 1%Q with (inject_Z 1). now rewrite <- Zle_Qle. }
  set (N := inject_Z n) in *. set (x := (u * N)%Q).
  assert (Hx0 : (0 <= x)%Q) by (apply Qmult_le_0_compat; lra).
  assert (Hx1 : (x <= (1 - eps64) * N)%Q) by (apply Qmult_le_compat_r; lra).
  pose proof (Hr x) as Hy. rewrite (Qabs_pos x Hx0) in Hy.
  apply Qabs_Qle_condition in Hy as [Hy1 Hy2].
  unfold eps64 in *.
  assert (Hlo : (0 <= rnd x)%Q) by lra.
  assert (Hhi : (rnd x < N)%Q) by lra.
  split.
  - change 0 with (Qfloor (inject_Z 0)) at 1. rewrite Qfloor_Z.
    apply Qle_lteq in Hlo. rewrite <- (Qfloor_Z 0). apply Qfloor_resp_le.
    destruct Hlo as [H|H]; [now apply Qlt_le_weak | rewrite <- H; apply Qle_refl].
  - assert (Hf : (inject_Z (Qfloor (rnd x)) < inject_Z n)%Q).
    { eapply Qle_lt_trans; [apply Qfloor_le | exact Hhi]. }
    rewrite <- Zlt_Qlt in Hf. lia.
Qed.

Lemma random_index_reversed rnd u (n : Z) :
  roundsLikeBinary64 rnd -> isRandom u -> n <= 0 ->
  n <= Qfloor (rnd (u * inject_Z n)%Q) <= 0.
Proof.
  intros Hr [Hu0 Hu1] Hn.
  assert (HN : (inject_Z n <= 0)%Q).
  { change 0%Q with (inject_Z 0). now rewrite <- Zle_Qle. }
  set (N := inject_Z n) in *. set (x := (u * N)%Q).
  assert (Hx0 : (x <= 0)%Q).
  { unfold x. rewrite Qmult_comm.
    apply Qopp_le_compat in HN. setoid_replace (- 0)%Q with 0%Q in HN by reflexivity.
    assert (H0 : (0 <= (- N) * u)%Q) by (apply Qmult_le_0_compat; assumption).
    lra. }
  assert (Hx1 : ((1 - eps64) * N <= x)%Q).
  { unfold x.
    assert (H0 : (u * (- N) <= (1 - eps64) * (- N))%Q)
      by (apply Qmult_le_compat_r; lra).
    lra. }
  pose proof (Hr x) as Hy. rewrite (Qabs_neg x Hx0) in Hy.
  apply Qabs_Qle_condition in Hy as [Hy1 Hy2].
  unfold eps64 in *.
  assert (Hhi : (rnd x <= 0)%Q) by lra.
  assert (Hlo : (N <= rnd x)%Q) by lra.
  split.
  - rewrite <- (Qfloor_Z n). now apply Qfloor_resp_le.
  - rewrite <- (Qfloor_Z 0). now apply Qfloor_resp_le.
Qed.

Lemma randomDelay_range rnd u min max :
  roundsLikeBinary64 rnd -> isRandom u ->
  Z.min min (max + 1) <= randomDelay rnd u min max <= Z.max min max.
Proof.
  intros Hr Hu. unfold randomDelay.
  destruct (Z_le_gt_dec min max) as [H|H].
  - pose proof (random_index_in_range rnd u (max - min + 1) Hr Hu ltac:(lia)). lia.
  - pose proof (random_index_reversed rnd u (max - min + 1) Hr Hu ltac:(lia)). lia.
Qed.

(** X11: the delay of [humanDelay(min, max)] and [getRandomDelay()] lies
    between [min] and [max], both included, whenever [min <= max]; when the
    bounds are given the wrong way round ([max < min]) the delay lies
    between [max + 1] and [min]; with [max = min] it is [min]. *)
Theorem randomDelay_within_bounds : forall rnd u min max,
  roundsLikeBinary64 rnd -> isRandom u ->
  (min <= max -> min <= randomDelay rnd u min max <= max) /\
  (max < min -> max + 1 <= randomDelay rnd u min max <= min) /\
  (max = min -> randomDelay rnd u min max = min).
Proof.
  intros rnd u min max Hr Hu.
  pose proof (randomDelay_range rnd u min max Hr Hu) as H.
  repeat split; intros; lia.
Qed.

(** X11, witness: exact rounding, the middle of the range, the default
    delays of the configuration. *)
Lemma randomDelay_within_bounds_witness :
  2000 <= randomDelay (fun x => x) (1 # 2) 2000 8000 <= 8000.
Proof.
  apply (randomDelay_within_bounds (fun x => x) (1 # 2) 2000 8000).
  - intros x. setoid_replace (x - x)%Q with 0%Q by ring. simpl Qabs.
    apply Qmult_le_0_compat; [discriminate | apply Qabs_nonneg].
  - split; discriminate.
  - lia.
Defined.

(** X12: [getRandomViewport] always returns one of the six listed viewport
    sizes, never [undefined]: the random index stays inside the array; with
    randomisation switched off it is the first one, 1920 by 1080.  Every
    viewport it can return is at least 1280 by 720. *)
Theorem getRandomViewport_is_listed : forall randomizeViewport rnd u,
  roundsLikeBinary64 rnd -> isRandom u ->
  exists v,
    getRandomViewport randomizeViewport rnd u = Some v /\
    In v viewports /\
    1280 <= width v /\ 720 <= height v /\
    (randomizeViewport = false -> v = {| width := 1920; height := 1080 |}).
Proof.
  intros flag rnd u Hr Hu.
  assert (All : forall v, In v viewports -> 1280 <= width v /\ 720 <= height v).
  { intros v Hin. unfold viewports in Hin. simpl in Hin.
    repeat (destruct Hin as [<- | Hin]; [simpl; lia|]). contradiction. }
  unfold getRandomViewport. destruct flag; cbn [negb].
  - pose proof (random_index_in_range rnd u
                  (Z.of_nat (List.length viewports)) Hr Hu ltac:(simpl; lia)) as Hi.
    set (i := Qfloor (rnd (u * inject_Z (Z.of_nat (List.length viewports)))%Q)) in *.
    unfold index. destruct (i <? 0) eqn:C; [apply Z.ltb_lt in C; lia|].
    destruct (nth_error viewports (Z.to_nat i)) as [v|] eqn:E.
    + exists v. split; [reflexivity|]. apply nth_error_In in E.
      split; [exact E|]. destruct (All v E). repeat split; auto. discriminate.
    + apply nth_error_None in E. lia.
  - eexists. split; [reflexivity|]. split; [now left|]. simpl.
    repeat split; auto; lia.
Qed.

(** X12, witness. *)
Lemma getRandomViewport_is_listed_witness :
  exists v, getRandomViewport true (fun x => x) (3 # 4) = Some v /\ In v viewports.
Proof.
  destruct (getRandomViewport_is_listed true (fun x => x) (3 # 4))
    as (v & E & Hin & _).
  - intros x. setoid_replace (x - x)%Q with 0%Q by ring. simpl Qabs.
    apply Qmult_le_0_compat; [discriminate | apply Qabs_nonneg].
  - split; discriminate.
  - exists v. split; assumption.
Defined.

(** ** Configuration values *)

Lemma trimStart_app ws t :
  forallb isSpace ws = true -> trimStart (ws ++ t) = trimStart t.
Proof.
  induction ws as [|c ws IH]; simpl; auto. intros H.
  apply andb_prop in H as [Hc H]. rewrite Hc. auto.
Qed.

Lemma spanDigits_run ds rest :
  forallb isDigit ds = true -> startsOutside isDigit rest ->
  spanDigits (ds ++ rest) = (ds, rest).
Proof.
  induction ds as [|c ds IH]; simpl; intros H Hr.
  - destruct rest as [|c rest]; simpl in *; auto. now rewrite Hr.
  - apply andb_prop in H as [Hc H]. now rewrite Hc, (IH H Hr).
Qed.

Lemma digit_not_space c : isDigit c = true -> isSpace c = false.
Proof.
  intros H. destruct (isSpace c) eqn:E; auto.
  apply space_not_digit in E. congruence.
Qed.

Lemma digit_not_sign c :
  isDigit c = true -> isChar "-" c = false /\ isChar "+" c = false.
Proof.
  unfold isDigit, isChar. intros H. apply andb_prop in H as [H1 H2].
  apply N.leb_le in H1, H2. simpl.
  split; apply N.eqb_neq; lia.
Qed.

Lemma parseInt10_unsigned ws ds rest :
  forallb isSpace ws = true -> forallb isDigit ds = true -> ds <> [] ->
  startsOutside isDigit rest ->
  parseInt10 (ws ++ ds ++ rest) = Some (digitsValue ds).
Proof.
  intros Hw Hd Hne Hr. unfold parseInt10. rewrite (trimStart_app _ _ Hw).
  destruct ds as [|c ds]; [congruence|].
  pose proof Hd as Hd'. cbn [forallb] in Hd'. apply andb_prop in Hd' as [Hc _].
  cbn [app trimStart]. rewrite (digit_not_space c Hc).
  destruct (digit_not_sign c Hc) as [-> ->].
  change (c :: ds ++ rest) with ((c :: ds) ++ rest).
  rewrite (spanDigits_run _ _ Hd Hr). cbn [fst].
  f_equal. lia.
Qed.

Lemma sign_not_space (a : ascii) c :
  a = "+"%char \/ a = "-"%char -> isChar a c = true -> isSpace c = false.
Proof.
  unfold isChar. intros [-> | ->] H; apply N.eqb_eq in H; subst c; reflexivity.
Qed.

Ltac eval_sign :=
  repeat (match goal with
          | |- context [isChar ?a (N_of_ascii ?b)] =>
              let v := eval vm_compute in (isChar a (N_of_ascii b)) in
              change (isChar a (N_of_ascii b)) with v
          | |- context [isSpace (N_of_ascii ?b)] =>
              let v := eval vm_compute in (isSpace (N_of_ascii b)) in
              change (isSpace (N_of_ascii b)) with v
          end; cbv iota).

Lemma parseInt10_signed (minus : bool) ws ds rest :
  forallb isSpace ws = true -> forallb isDigit ds = true -> ds <> [] ->
  startsOutside isDigit rest ->
  parseInt10 (ws ++ js (if minus then "-" else "+") ++ ds ++ rest)
  = Some (if minus then - digitsValue ds else digitsValue ds).
Proof.
  intros Hw Hd Hne Hr. unfold parseInt10. rewrite (trimStart_app _ _ Hw).
  destruct ds as [|c ds]; [congruence|].
  destruct minus; cbn [js app trimStart]; eval_sign;
    change (c :: ds ++ rest) with ((c :: ds) ++ rest);
    rewrite (spanDigits_run _ _ Hd Hr); cbn [fst]; f_equal; lia.
Qed.

Lemma parseInt10_nothing body :
  startsOutside isDigit body -> fst (spanDigits body) = [].
Proof.
  destruct body as [|c body]; simpl; auto. now intros ->.
Qed.

Lemma parseNumber_some s d : parseNumber (Some s) d = parseNumber (Some (orElse s [])) d.
Proof. unfold parseNumber, orElse. now destruct s. Qed.

Lemma orElse_nil s : orElse s [] = s.
Proof. now destruct s. Qed.

(** X13: [parseNumber] reads the integer a value starts with: leading white
    space is skipped, one sign is accepted, the digits are read up to the
    first character that is not a digit and the rest is ignored, so
    [30000ms] gives 30000 and [2.5] gives 2; the default plays no part. *)
Theorem parseNumber_reads_leading_integer : forall ws ds rest defaultValue,
  forallb isSpace ws = true ->
  forallb isDigit ds = true -> ds <> [] ->
  digitsValue ds <= 2 ^ 53 ->
  startsOutside isDigit rest ->
  parseNumber (Some (ws ++ ds ++ rest)) defaultValue = digitsValue ds /\
  parseNumber (Some (ws ++ js "+" ++ ds ++ rest)) defaultValue = digitsValue ds /\
  parseNumber (Some (ws ++ js "-" ++ ds ++ rest)) defaultValue = - digitsValue ds /\
  0 <= digitsValue ds.
Proof.
  intros ws ds rest d Hw Hd Hne _ Hr. unfold parseNumber.
  rewrite !orElse_nil.
  rewrite (parseInt10_unsigned ws ds rest Hw Hd Hne Hr).
  rewrite (parseInt10_signed false ws ds rest Hw Hd Hne Hr).
  rewrite (parseInt10_signed true ws ds rest Hw Hd Hne Hr).
  repeat split. now apply digitsValue_nonneg.
Qed.

(** X13, witness: [TIMEOUT= 30000ms]. *)
Lemma parseNumber_reads_leading_integer_witness :
  parseNumber (Some (js " 30000ms")) 5 = 30000.
Proof.
  change (js " 30000ms") with (js " " ++ js "30000" ++ js "ms").
  refine (proj1 (parseNumber_reads_leading_integer
                   (js " ") (js "30000") (js "ms") 5 _ _ _ _ _)).
  - reflexivity.
  - reflexivity.
  - discriminate.
  - vm_compute. discriminate.
  - reflexivity.
Defined.

(** X14: [parseNumber] falls back on the default exactly when no digit
    stands where the number should start: for an unset variable, the empty
    string, white space only, a value that starts with anything but white
    space, a sign or a digit, and a sign not followed at once by a digit. *)
Theorem parseNumber_default : forall ws rest defaultValue,
  forallb isSpace ws = true ->
  startsOutside isDigit rest ->
  parseNumber None defaultValue = defaultValue /\
  parseNumber (Some []) defaultValue = defaultValue /\
  parseNumber (Some ws) defaultValue = defaultValue /\
  (startsOutside numberStart rest ->
   parseNumber (Some (ws ++ rest)) defaultValue = defaultValue) /\
  parseNumber (Some (ws ++ js "+" ++ rest)) defaultValue = defaultValue /\
  parseNumber (Some (ws ++ js "-" ++ rest)) defaultValue = defaultValue.
Proof.
  intros ws rest d Hw Hr. unfold parseNumber. rewrite !orElse_nil.
  split; [reflexivity|]. split; [reflexivity|].
  assert (E : forall t, parseInt10 (ws ++ t) = parseInt10 t).
  { intros t. unfold parseInt10. now rewrite (trimStart_app _ _ Hw). }
  split.
  { rewrite <- (app_nil_r ws), E. reflexivity. }
  rewrite !E. split; [|split].
  - intros Hs. unfold parseInt10.
    destruct rest as [|c rest]; [reflexivity|].
    simpl in Hs. unfold numberStart in Hs.
    apply Bool.orb_false_iff in Hs as [Hs Hm].
    apply Bool.orb_false_iff in Hs as [Hs Hp].
    apply Bool.orb_false_iff in Hs as [Hsp Hdg].
    cbn [trimStart]. rewrite Hsp, Hm, Hp.
    now rewrite (parseInt10_nothing (c :: rest) Hr).
  - unfold parseInt10. cbn [js app trimStart]. eval_sign.
    now rewrite (parseInt10_nothing rest Hr).
  - unfold parseInt10. cbn [js app trimStart]. eval_sign.
    now rewrite (parseInt10_nothing rest Hr).
Qed.

(** X14, witness: [MAX_RETRIES=three]. *)
Lemma parseNumber_default_witness :
  parseNumber (Some (js "three")) 3 = 3.
Proof.
  refine (proj1 (proj2 (proj2 (proj2
            (parseNumber_default [] (js "three") 3 _ _)))) _);
    reflexivity.
Defined.

Lemma lower_letter c x :
  (97 <= x <= 122)%N -> lower c = x <-> c = x \/ c = (x - 32)%N.
Proof.
  intros Hx. unfold lower.
  destruct (65 <=? c)%N eqn:E1; destruct (c <=? 90)%N eqn:E2; cbn [andb];
    try apply N.leb_le in E1; try apply N.leb_gt in E1;
    try apply N.leb_le in E2; try apply N.leb_gt in E2; lia.
Qed.

Lemma jsstring_eqb_eq a b : jsstring_eqb a b = true <-> a = b.
Proof.
  unfold jsstring_eqb. destruct (list_eq_dec N.eq_dec a b); split; congruence.
Qed.

(** X15: [parseBoolean] is true exactly for the four letters [true] in any
    mix of upper and lower case, with nothing before or after; an unset
    variable, [1], [yes] and a value with surrounding white space are all
    false. *)
Theorem parseBoolean_true_iff : forall value,
  parseBoolean value = true <->
  exists c1 c2 c3 c4,
    value = Some [c1; c2; c3; c4] /\
    In c1 (js "tT") /\ In c2 (js "rR") /\ In c3 (js "uU") /\ In c4 (js "eE").
Proof.
  intros [v|]; cbn [parseBoolean].
  - rewrite jsstring_eqb_eq. unfold toLowerCase. split.
    + intros H.
      destruct v as [|c1 [|c2 [|c3 [|c4 [|c5 v]]]]]; try discriminate H.
      cbn [map js] in H. injection H as H1 H2 H3 H4.
      apply (lower_letter c1 116) in H1; [|lia].
      apply (lower_letter c2 114) in H2; [|lia].
      apply (lower_letter c3 117) in H3; [|lia].
      apply (lower_letter c4 101) in H4; [|lia].
      exists c1, c2, c3, c4. split; [reflexivity|]. cbn [js In].
      change (N_of_ascii "t") with 116%N. change (N_of_ascii "T") with 84%N.
      change (N_of_ascii "r") with 114%N. change (N_of_ascii "R") with 82%N.
      change (N_of_ascii "u") with 117%N. change (N_of_ascii "U") with 85%N.
      change (N_of_ascii "e") with 101%N. change (N_of_ascii "E") with 69%N.
      change (116 - 32)%N with 84%N in H1. change (114 - 32)%N with 82%N in H2.
      change (117 - 32)%N with 85%N in H3. change (101 - 32)%N with 69%N in H4.
      repeat split; [destruct H1 | destruct H2 | destruct H3 | destruct H4]; auto.
    + intros (c1 & c2 & c3 & c4 & E & H1 & H2 & H3 & H4).
      injection E as ->. cbn [js In] in H1, H2, H3, H4.
      destruct H1 as [<-|[<-|[]]]; destruct H2 as [<-|[<-|[]]];
        destruct H3 as [<-|[<-|[]]]; destruct H4 as [<-|[<-|[]]]; reflexivity.
  - split; [discriminate|]. intros (c1 & c2 & c3 & c4 & E & _). discriminate E.
Qed.

(** X16: whatever the environment, once the [rateLimiting] block passes its
    schema every delay of [getRandomDelay] is at least 1000 ms and at most
    the larger of the two configured bounds (the schema does not ask for
    [minDelay <= maxDelay]); with the three variables unset the block is
    valid and the delay lies between 2000 and 8000. *)
Theorem validated_delay_bounds : forall r rnd u,
  rateLimitingValid r = true ->
  roundsLikeBinary64 rnd -> isRandom u ->
  1000 <= getRandomDelay r rnd u <= Z.max (minDelay r) (maxDelay r) /\
  rateLimitingValid (rawRateLimiting None None None) = true /\
  2000 <= getRandomDelay (rawRateLimiting None None None) rnd u <= 8000.
Proof.
  intros r rnd u Hv Hr Hu. unfold rateLimitingValid in Hv.
  apply andb_prop in Hv as [Hv _]. apply andb_prop in Hv as [H1 H2].
  apply Z.leb_le in H1, H2. unfold getRandomDelay.
  pose proof (randomDelay_range rnd u (minDelay r) (maxDelay r) Hr Hu).
  split; [lia|]. split; [reflexivity|].
  pose proof (randomDelay_range rnd u 2000 8000 Hr Hu).
  change (minDelay (rawRateLimiting None None None)) with 2000.
  change (maxDelay (rawRateLimiting None None None)) with 8000. lia.
Qed.

(** X16, witness: [MIN_DELAY=5000] with [MAX_DELAY=1000], the bounds the
    wrong way round. *)
Lemma validated_delay_bounds_witness :
  1000 <= getRandomDelay (rawRateLimiting (Some (js "5000")) (Some (js "1000")) None)
            (fun x => x) (1 # 2) <= 5000.
Proof.
  refine (proj1 (validated_delay_bounds
            (rawRateLimiting (Some (js "5000")) (Some (js "1000")) None)
            (fun x => x) (1 # 2) _ _ _)).
  - vm_compute. reflexivity.
  - intros x. setoid_replace (x - x)%Q with 0%Q by ring. simpl Qabs.
    apply Qmult_le_0_compat; [discriminate | apply Qabs_nonneg].
  - split; discriminate.
Defined.

(** ** The API lead generator *)

Lemma atLeastQ_spec o (bound : Q) :
  (0 < bound)%Q ->
  Leads.atLeastQ o bound = true <-> exists x, o = Some x /\ (bound <= x)%Q.
Proof.
  intros Hb. destruct o as [x|]; cbn [Leads.atLeastQ].
  - rewrite Bool.andb_true_iff, Bool.negb_true_iff, Qle_bool_iff. split.
    + intros [_ H]. eauto.
    + intros (y & E & H). injection E as ->. split; [|exact H].
      destruct (Qeq_bool y 0) eqn:E; [|reflexivity].
      apply Qeq_bool_iff in E. rewrite E in H. lra.
  - split; [discriminate | intros (x & E & _); discriminate].
Qed.

Lemma atLeastZ_spec o bound :
  0 < bound ->
  Leads.atLeastZ o bound = true <-> exists x, o = Some x /\ bound <= x.
Proof.
  intros Hb. destruct o as [x|]; cbn [Leads.atLeastZ].
  - rewrite Bool.andb_true_iff, Bool.negb_true_iff, Z.leb_le, Z.eqb_neq. split.
    + intros [_ H]. eauto.
    + intros (y & E & H). injection E as ->. lia.
  - split; [discriminate | intros (x & E & _); discriminate].
Qed.

Lemma isOperational_spec o :
  Leads.isOperational o = true <-> o = Some (js "OPERATIONAL").
Proof.
  destruct o as [s|]; cbn [Leads.isOperational].
  - rewrite jsstring_eqb_eq. split; congruence.
  - split; discriminate.
Qed.

Lemma leadScore_sum details :
  Leads.leadScore details =
    (if negb (Leads.truthyOpt (PlaceDetails.website details)) then 40 else 0)
    + (if Leads.truthyOpt (PlaceDetails.formatted_phone_number details) then 30 else 0)
    + (if Leads.atLeastQ (PlaceDetails.rating details) 4 then 10 else 0)
    + (if Leads.atLeastZ (PlaceDetails.user_ratings_total details) 50 then 10 else 0)
    + (if Leads.isOperational (PlaceDetails.business_status details) then 10 else 0).
Proof.
  unfold Leads.leadScore.
  destruct (negb _), (Leads.truthyOpt (PlaceDetails.formatted_phone_number details)),
    (Leads.atLeastQ _ _), (Leads.atLeastZ _ _), (Leads.isOperational _); reflexivity.
Qed.

(** X17: for a place without a website (the only places scored) the lead
    score is a multiple of ten between 40 and 100; a place with a phone
    number scores at least 70 and one without at most 70, so no lead without
    a phone ranks above one with a phone; the score is 100 exactly when the
    place has a phone, a rating of 4 or more, 50 ratings or more and the
    status [OPERATIONAL]. *)
Theorem leadScore_range : forall details,
  Leads.truthyOpt (PlaceDetails.website details) = false ->
  40 <= Leads.leadScore details <= 100 /\
  Leads.leadScore details mod 10 = 0 /\
  (Leads.truthyOpt (PlaceDetails.formatted_phone_number details) = true ->
   70 <= Leads.leadScore details) /\
  (Leads.truthyOpt (PlaceDetails.formatted_phone_number details) = false ->
   Leads.leadScore details <= 70) /\
  (Leads.leadScore details = 100 <->
   Leads.truthyOpt (PlaceDetails.formatted_phone_number details) = true /\
   (exists r, PlaceDetails.rating details = Some r /\ (4 <= r)%Q) /\
   (exists n, PlaceDetails.user_ratings_total details = Some n /\ 50 <= n) /\
   PlaceDetails.business_status details = Some (js "OPERATIONAL")).
Proof.
  intros details Hw.
  rewrite <- (atLeastQ_spec (PlaceDetails.rating details) 4) by reflexivity.
  rewrite <- (atLeastZ_spec (PlaceDetails.user_ratings_total details) 50) by lia.
  rewrite <- isOperational_spec.
  rewrite leadScore_sum, Hw. cbn [negb].
  destruct (Leads.truthyOpt (PlaceDetails.formatted_phone_number details)),
    (Leads.atLeastQ _ _), (Leads.atLeastZ _ _), (Leads.isOperational _);
    cbn; (split; [lia|]); (split; [reflexivity|]);
    (split; [intros; lia|]); (split; [intros; lia|]);
    split; try discriminate; try tauto; intros (H1 & H2 & H3 & H4); discriminate.
Qed.

(** X17, witness: a dentist with a phone, rated 4.7 by 120 people, open. *)
Lemma leadScore_range_witness :
  Leads.leadScore {|
    PlaceDetails.name := Some (js "Clinic");
    PlaceDetails.formatted_phone_number := Some (js "03-123-4567");
    PlaceDetails.international_phone_number := None;
    PlaceDetails.formatted_address := None;
    PlaceDetails.website := None;
    PlaceDetails.rating := Some (47 # 10);
    PlaceDetails.user_ratings_total := Some 120;
    PlaceDetails.business_status := Some (js "OPERATIONAL");
    PlaceDetails.price_level := None |} mod 10 = 0.
Proof.
  refine (proj1 (proj2 (leadScore_range _ _))). reflexivity.
Defined.

Lemma startsWith_spec : forall p s,
  Leads.startsWith s p = true <-> exists r, s = p ++ r.
Proof.
  induction p as [|a p IH]; intros s.
  - destruct s; simpl; split; eauto.
  - destruct s as [|c s]; simpl.
    + split; [discriminate | intros [r H]; discriminate].
    + rewrite Bool.andb_true_iff, N.eqb_eq, IH. split.
      * intros [-> [r ->]]. eauto.
      * intros [r H]. injection H as -> ->. eauto.
Qed.

Lemma forallb_filter_same {A} (f : A -> bool) l : forallb f (filter f l) = true.
Proof.
  induction l as [|x l IH]; simpl; auto.
  destruct (f x) eqn:E; simpl; auto. now rewrite E.
Qed.

(** X18: for a place with a phone number the WhatsApp link is always
    [https://wa.me/972] followed by digits only; if the digits of the phone
    number already start with 972 they are kept as they are; otherwise the
    first digit is dropped, whatever it is, and 972 put in its place, so a
    local number [0...] loses its leading zero. *)
Theorem whatsappLink_format : forall phone,
  phone <> [] ->
  exists n,
    Leads.whatsappLink (Some phone) = js "https://wa.me/972" ++ n /\
    forallb isDigit n = true /\
    (forall r, Leads.digitsOnly phone = js "972" ++ r -> n = r) /\
    (forall r, Leads.digitsOnly phone = js "0" ++ r -> n = r) /\
    (Leads.startsWith (Leads.digitsOnly phone) (js "972") = false ->
     n = tl (Leads.digitsOnly phone)).
Proof.
  intros phone Hne. unfold Leads.whatsappLink.
  assert (T : Leads.truthyOpt (Some phone) = true) by (destruct phone; [congruence | reflexivity]).
  rewrite T.
  pose proof (forallb_filter_same isDigit phone) as Hd.
  fold (Leads.digitsOnly phone) in Hd.
  set (clean := Leads.digitsOnly phone) in *.
  destruct (Leads.startsWith clean (js "972")) eqn:E.
  - apply startsWith_spec in E as [r Er]. exists r. rewrite Er in *.
    split; [reflexivity|]. split.
    + rewrite forallb_app in Hd. now apply andb_prop in Hd as [_ Hd].
    + split; [|split].
      * intros r' H. now apply app_inv_head in H.
      * intros r' H. discriminate H.
      * intros H. assert (H' : Leads.startsWith (js "972" ++ r) (js "972") = true)
          by (apply startsWith_spec; eauto).
        congruence.
  - exists (tl clean). split; [reflexivity|]. split.
    + destruct clean as [|c clean']; simpl in *; auto.
      now apply andb_prop in Hd as [_ Hd].
    + split; [|split].
      * intros r H. assert (H' : Leads.startsWith clean (js "972") = true)
          by (apply startsWith_spec; eauto).
        congruence.
      * intros r H. rewrite H. reflexivity.
      * reflexivity.
Qed.

(** X18, witness: a local mobile number. *)
Lemma whatsappLink_format_witness :
  exists n, Leads.whatsappLink (Some (js "054-123-4567")) = js "https://wa.me/972" ++ n /\
            n = js "541234567".
Proof.
  destruct (whatsappLink_format (js "054-123-4567")) as (n & E & _ & _ & Z0 & _).
  - discriminate.
  - exists n. split; [exact E|]. apply Z0. reflexivity.
Defined.

Lemma dashed_plain s : plain s = true -> Leads.dashed s = s.
Proof.
  unfold plain, Leads.dashed. induction s as [|c s IH]; simpl; auto.
  intros H. apply andb_prop in H as [Hc H].
  apply Bool.negb_true_iff in Hc. rewrite Hc. f_equal. auto.
Qed.

Lemma dashed_is_plain s : plain (Leads.dashed s) = true.
Proof.
  unfold plain, Leads.dashed. induction s as [|c s IH]; cbn [map forallb]; auto.
  rewrite IH, Bool.andb_true_r.
  destruct (Leads.isColonOrDot c) eqn:E; [reflexivity|]. now rewrite E.
Qed.

Lemma plain_firstn n s : plain s = true -> plain (firstn n s) = true.
Proof.
  unfold plain. revert s. induction n as [|n IH]; intros [|c s]; simpl; auto.
  intros H. apply andb_prop in H as [-> H]. simpl. auto.
Qed.

Lemma slice0_drop_last {A} (a b : list A) :
  List.length b = 5%nat -> slice0 (a ++ b) (-5) = a.
Proof.
  intros Hb. unfold slice0. rewrite length_app, Hb.
  change (-5 <? 0) with true. cbv iota.
  replace (Z.to_nat (Z.max (Z.of_nat (List.length a + 5) + -5) 0))
    with (List.length a + 0)%nat by lia.
  rewrite firstn_app_2. simpl. apply app_nil_r.
Qed.

(** X19: the time stamp in the name of the CSV file never contains [:] or
    [.] and is five characters shorter than the ISO string it is cut from;
    for an ISO string [date T hh:mm:ss.mmm Z] it is the date and the time to
    the second, with [-] between hours, minutes and seconds. *)
Theorem fileStamp_keeps_date_and_time : forall date hh mm ss ms,
  plain date = true -> plain hh = true -> plain mm = true -> plain ss = true ->
  List.length ms = 3%nat ->
  Leads.fileStamp (date ++ js "T" ++ hh ++ js ":" ++ mm ++ js ":" ++ ss
                   ++ js "." ++ ms ++ js "Z")
  = date ++ js "T" ++ hh ++ js "-" ++ mm ++ js "-" ++ ss /\
  forall iso,
    plain (Leads.fileStamp iso) = true /\
    List.length (Leads.fileStamp iso) = (List.length iso - 5)%nat.
Proof.
  intros date hh mm ss ms Hd Hh Hm Hs Hms. split.
  - unfold Leads.fileStamp.
    assert (E : Leads.dashed (date ++ js "T" ++ hh ++ js ":" ++ mm ++ js ":" ++ ss
                              ++ js "." ++ ms ++ js "Z")
                = (date ++ js "T" ++ hh ++ js "-" ++ mm ++ js "-" ++ ss)
                  ++ (js "-" ++ Leads.dashed ms ++ js "Z")).
    { unfold Leads.dashed at 1. rewrite !map_app.
      fold (Leads.dashed date). fold (Leads.dashed hh). fold (Leads.dashed mm).
      fold (Leads.dashed ss). fold (Leads.dashed ms).
      rewrite (dashed_plain date Hd), (dashed_plain hh Hh),
        (dashed_plain mm Hm), (dashed_plain ss Hs).
      rewrite <- !app_assoc. reflexivity. }
    rewrite E. apply slice0_drop_last.
    rewrite !length_app. unfold Leads.dashed. rewrite length_map, Hms. reflexivity.
  - intros iso. unfold Leads.fileStamp, slice0.
    change (-5 <? 0) with true. cbv iota. split.
    + apply plain_firstn, dashed_is_plain.
    + rewrite length_firstn. unfold Leads.dashed. rewrite length_map. lia.
Qed.

(** X19, witness. *)
Lemma fileStamp_keeps_date_and_time_witness :
  Leads.fileStamp (js "2024-03-05T14:07:09.123Z") = js "2024-03-05T14-07-09".
Proof.
  change (js "2024-03-05T14:07:09.123Z")
    with (js "2024-03-05" ++ js "T" ++ js "14" ++ js ":" ++ js "07" ++ js ":"
          ++ js "09" ++ js "." ++ js "123" ++ js "Z").
  change (js "2024-03-05T14-07-09")
    with (js "2024-03-05" ++ js "T" ++ js "14" ++ js "-" ++ js "07" ++ js "-" ++ js "09").
  refine (proj1 (fileStamp_keeps_date_and_time
                   (js "2024-03-05") (js "14") (js "07") (js "09") (js "123")
                   _ _ _ _ _)); reflexivity.
Defined.

Section LeadSearch.

Variable W : Type.
Variable textSearch : jsstring -> call W (option (list (option jsstring))).
Variable placeDetails : jsstring -> call W (option PlaceDetails.t).




End LeadSearch.

